(** * @bytware/logger: level filter, formatter and logger contexts

    A shallow embedding of [src/index.ts].  JavaScript strings are modelled
    by [string], one [ascii] per UTF-16 code unit, which covers the code
    units 0..255; numbers are modelled by [Z], the integer-valued doubles
    (exact below 2^53 in magnitude).  The clock, the environment variable
    and the console are explicit: a [Date] and an [Env] go in, the lines
    written are part of the [World]. *)

From Stdlib Require Import Bool Arith ZArith Lia List String Ascii DecimalString.
Import ListNotations.
Open Scope list_scope.
Open Scope string_scope.

(** ** Strings *)

Definition chr (n : nat) : string := String (ascii_of_nat n) "".
Definition ESC : string := chr 27.
Definition NL : string := chr 10.

(** [String.prototype.toLowerCase] on the code units 0..255: the ASCII
    capitals and the Latin-1 capitals U+00C0..U+00DE (U+00D7 is the
    multiplication sign) move up by 32. *)
Definition lower_char (c : ascii) : ascii :=
  let n := nat_of_ascii c in
  if ((65 <=? n) && (n <=? 90))%nat then ascii_of_nat (n + 32)
  else if ((192 <=? n) && (n <=? 222) && negb (n =? 215))%nat then ascii_of_nat (n + 32)
  else c.

Definition upper_char (c : ascii) : ascii :=
  let n := nat_of_ascii c in
  if ((97 <=? n) && (n <=? 122))%nat then ascii_of_nat (n - 32)
  else c.

Fixpoint map_string (f : ascii -> ascii) (s : string) : string :=
  match s with
  | EmptyString => EmptyString
  | String c r => String (f c) (map_string f r)
  end.

Definition toLowerCase : string -> string := map_string lower_char.
(** Only applied to the four level names, which are ASCII. *)
Definition toUpperCase : string -> string := map_string upper_char.

Fixpoint repeat_string (n : nat) (fill : string) : string :=
  match n with
  | O => ""
  | S k => fill ++ repeat_string k fill
  end.

(** [padStart] and [padEnd] with a one-character filler, the only use in
    the source. *)
Definition padStart (width : nat) (fill : string) (s : string) : string :=
  repeat_string (width - String.length s) fill ++ s.

Definition padEnd (width : nat) (fill : string) (s : string) : string :=
  s ++ repeat_string (width - String.length s) fill.

(** [Number.prototype.toString] on an integer. *)
Definition Number_toString (z : Z) : string :=
  NilZero.string_of_int (Z.to_int z).

Fixpoint join (sep : string) (l : list string) : string :=
  match l with
  | [] => ""
  | [x] => x
  | x :: r => x ++ sep ++ join sep r
  end.

Fixpoint mem_string (k : string) (l : list string) : bool :=
  match l with
  | [] => false
  | x :: r => String.eqb k x || mem_string k r
  end.

(** ** Levels *)

Inductive LogLevel := debug | info | warn | error.

Definition level_name (l : LogLevel) : string :=
  match l with
  | debug => "debug"
  | info => "info"
  | warn => "warn"
  | error => "error"
  end.

(** What a property read [LEVEL_VALUES[k]] can give: the number of an own
    key, a function or object inherited from [Object.prototype], or
    [undefined]. *)
Inductive level_entry :=
| LNumber (n : Z)
| LInherited
| LUndefined.

(** The property names of [Object.prototype], which every object literal
    inherits. *)
Definition Object_prototype_keys : list string :=
  [ "constructor"; "__defineGetter__"; "__defineSetter__"; "hasOwnProperty";
    "__lookupGetter__"; "__lookupSetter__"; "isPrototypeOf";
    "propertyIsEnumerable"; "toString"; "valueOf"; "__proto__";
    "toLocaleString" ].

Definition LEVEL_VALUES (k : string) : level_entry :=
  if String.eqb k "debug" then LNumber 0
  else if String.eqb k "info" then LNumber 1
  else if String.eqb k "warn" then LNumber 2
  else if String.eqb k "error" then LNumber 3
  else if mem_string k Object_prototype_keys then LInherited
  else LUndefined.

Definition LEVEL_COLORS (l : LogLevel) : string :=
  match l with
  | debug => ESC ++ "[90m"
  | info => ESC ++ "[34m"
  | warn => ESC ++ "[33m"
  | error => ESC ++ "[31m"
  end.

(** [a >= b] on two such reads: a function and [Object.prototype] convert
    to NaN, as does [undefined], and every comparison with NaN is false. *)
Definition entry_ge (a b : level_entry) : bool :=
  match a, b with
  | LNumber x, LNumber y => (y <=? x)%Z
  | _, _ => false
  end.

Definition ordinal (l : LogLevel) : Z :=
  match l with
  | debug => 0
  | info => 1
  | warn => 2
  | error => 3
  end.

(** [process.env.LOG_LEVEL]: absent, or a string. *)
Definition Env := option string.

(** [x || 'info'] on an optional string. *)
Definition or_default (e : Env) (d : string) : string :=
  match e with
  | Some s => if String.eqb s "" then d else s
  | None => d
  end.

Definition getLogLevel (env : Env) : string :=
  let level := toLowerCase (or_default env "info") in
  match LEVEL_VALUES level with
  | LUndefined => "info"
  | _ => level
  end.

Definition shouldLog (env : Env) (level : LogLevel) : bool :=
  let configuredLevel := getLogLevel env in
  entry_ge (LEVEL_VALUES (level_name level)) (LEVEL_VALUES configuredLevel).

(** ** Values, objects and the heap *)

Definition addr := nat.

(** The values a context or a data payload holds: plain data.  Objects,
    arrays and exceptions are heap references, so a payload can share or be
    cyclic.  There are no functions, proxies or symbols among them, hence no
    [toJSON]; objects with getters come further down, as
    [accessor_object]. *)
Inductive value :=
| VUndefined
| VNull
| VBool (b : bool)
| VNumber (n : Z)
| VString (s : string)
| VBigInt (n : Z)
| VRef (a : addr).

(** Enumerable own properties in creation order; of two entries with one
    key the first is the property. *)
Definition props := list (string * value).

Inductive object :=
| OObject (ps : props)
| OArray (els : list value)
| OError (stack message : string) (ps : props).

Definition heap := list object.

Definition truthy (v : value) : bool :=
  match v with
  | VUndefined | VNull => false
  | VBool b => b
  | VNumber n => negb (n =? 0)%Z
  | VString s => negb (String.eqb s "")
  | VBigInt n => negb (n =? 0)%Z
  | VRef _ => true
  end.

Fixpoint get (k : string) (o : props) : option value :=
  match o with
  | [] => None
  | (k', v) :: r => if String.eqb k k' then Some v else get k r
  end.

(** [o[k] = v] on a data property: an existing key keeps its place. *)
Fixpoint set (k : string) (v : value) (o : props) : props :=
  match o with
  | [] => [(k, v)]
  | (k', v') :: r =>
      if String.eqb k k' then (k, v) :: r else (k', v') :: set k v r
  end.

(** [delete o[k]] *)
Definition delete (k : string) (o : props) : props :=
  filter (fun p => negb (String.eqb k (fst p))) o.

Definition is_digit (c : ascii) : bool :=
  let n := nat_of_ascii c in ((48 <=? n) && (n <=? 57))%nat.

Fixpoint digits_value (s : string) (acc : N) : option N :=
  match s with
  | EmptyString => Some acc
  | String c r =>
      if is_digit c
      then digits_value r (10 * acc + N.of_nat (nat_of_ascii c - 48))%N
      else None
  end.

(** A key is an array index when it is the canonical decimal form of an
    integer below 2^32 - 1. *)
Definition array_index (k : string) : option N :=
  match k with
  | EmptyString => None
  | String c r =>
      if Ascii.eqb c "0" && negb (String.eqb r "") then None
      else match digits_value k 0 with
           | Some n => if (n <? 4294967295)%N then Some n else None
           | None => None
           end
  end.

Fixpoint dedup (l : list string) : list string :=
  match l with
  | [] => []
  | k :: r => k :: filter (fun x => negb (String.eqb k x)) (dedup r)
  end.

Fixpoint insert_index (x : N * string) (l : list (N * string)) : list (N * string) :=
  match l with
  | [] => [x]
  | y :: r => if (fst x <=? fst y)%N then x :: l else y :: insert_index x r
  end.

Fixpoint index_keys (l : list string) : list (N * string) :=
  match l with
  | [] => []
  | k :: r =>
      match array_index k with
      | Some n => insert_index (n, k) (index_keys r)
      | None => index_keys r
      end
  end.

Definition is_index (k : string) : bool :=
  match array_index k with Some _ => true | None => false end.

(** [OrdinaryOwnPropertyKeys]: array indices in ascending order, then the
    other keys in creation order. *)
Definition ownKeys (o : props) : list string :=
  let ks := dedup (map fst o) in
  (map snd (index_keys ks) ++ filter (fun k => negb (is_index k)) ks)%list.

Definition read (k : string) (o : props) : value :=
  match get k o with Some v => v | None => VUndefined end.

Definition own_entries (o : props) : props :=
  map (fun k => (k, read k o)) (ownKeys o).

Fixpoint indexed_from (i : nat) (l : list value) : props :=
  match l with
  | [] => []
  | v :: r => (Number_toString (Z.of_nat i), v) :: indexed_from (S i) r
  end.

Fixpoint chars (s : string) : list value :=
  match s with
  | EmptyString => []
  | String c r => VString (String c "") :: chars r
  end.

Definition object_entries (o : object) : props :=
  match o with
  | OObject ps => own_entries ps
  | OArray els => indexed_from 0 els
  | OError _ _ ps => own_entries ps
  end.

(** The enumerable own properties of any value, in key order: what
    [Object.keys] lists and what a spread copies.  A reference outside the
    heap is read as an object without properties. *)
Definition own_enumerable (h : heap) (v : value) : props :=
  match v with
  | VString s => indexed_from 0 (chars s)
  | VRef a =>
      match nth_error h a with
      | Some o => object_entries o
      | None => []
      end
  | _ => []
  end.

Definition Object_keys (h : heap) (v : value) : list string :=
  map fst (own_enumerable h v).

(** [CopyDataProperties]: what [...src] does inside an object literal. *)
Definition CopyDataProperties (target : props) (src : props) : props :=
  fold_left (fun t kv => set (fst kv) (snd kv) t) src target.

(** [{ ...o }] for an object with properties [o]. *)
Definition spread (o : props) : props := CopyDataProperties [] (own_entries o).

(** [v.k] on a truthy value, for a key that no prototype defines; an
    exception has its stack and message as own properties that are not
    enumerable. *)
Definition Get (h : heap) (v : value) (k : string) : value :=
  match v with
  | VRef a =>
      match nth_error h a with
      | Some (OObject ps) => read k ps
      | Some (OError stack message ps) =>
          if String.eqb k "stack" then VString stack
          else if String.eqb k "message" then VString message
          else read k ps
      | _ => VUndefined
      end
  | _ => VUndefined
  end.

(** [v instanceof Error], with the exception's stack and message. *)
Definition as_Error (h : heap) (v : value) : option (string * string) :=
  match v with
  | VRef a =>
      match nth_error h a with
      | Some (OError stack message _) => Some (stack, message)
      | _ => None
      end
  | _ => None
  end.

(** ** JSON.stringify with the formatter's replacer *)

Inductive outcome (A : Type) :=
| Returns (a : A)
| Throws (err : string)
| OutOfFuel.
Arguments Returns {A} a.
Arguments Throws {A} err.
Arguments OutOfFuel {A}.

Definition hex_digit (n : nat) : string :=
  String.substring n 1 "0123456789abcdef".

Definition escape_char (c : ascii) : string :=
  let n := nat_of_ascii c in
  if (n =? 8)%nat then "\b"
  else if (n =? 9)%nat then "\t"
  else if (n =? 10)%nat then "\n"
  else if (n =? 12)%nat then "\f"
  else if (n =? 13)%nat then "\r"
  else if (n =? 34)%nat then "\" ++ chr 34
  else if (n =? 92)%nat then "\\"
  else if (n <? 32)%nat then "\u00" ++ hex_digit (n / 16) ++ hex_digit (n mod 16)
  else String c "".

Fixpoint escape_string (s : string) : string :=
  match s with
  | EmptyString => ""
  | String c r => escape_char c ++ escape_string r
  end.

Definition QuoteJSONString (s : string) : string :=
  chr 34 ++ escape_string s ++ chr 34.

Definition mem_addr (a : addr) (l : list addr) : bool := existsb (Nat.eqb a) l.

(** The replacer of [formatDebugObject]; [seen] is its [WeakSet]. *)
Definition replacer (seen : list addr) (v : value) : value * list addr :=
  match v with
  | VRef a =>
      if mem_addr a seen then (VString "[Circular]", seen)
      else (v, a :: seen)
  | _ => (v, seen)
  end.

Definition bigint_error : string :=
  "TypeError: Do not know how to serialize a BigInt".
Definition circular_error : string :=
  "TypeError: Converting circular structure to JSON".

(** The third argument of [JSON.stringify] is 2. *)
Definition gap : string := "  ".

(** Serialises the values of a property list from left to right, the
    replacer's set going from one to the next. *)
Fixpoint serialize_each
    (ser : list addr -> value -> outcome (option string * list addr))
    (seen : list addr) (vs : list value)
  : outcome (list (option string) * list addr) :=
  match vs with
  | [] => Returns ([], seen)
  | v :: r =>
      match ser seen v with
      | Returns (s, seen1) =>
          match serialize_each ser seen1 r with
          | Returns (ss, seen2) => Returns (s :: ss, seen2)
          | Throws e => Throws e
          | OutOfFuel => OutOfFuel
          end
      | Throws e => Throws e
      | OutOfFuel => OutOfFuel
      end
  end.

Fixpoint members (ks : list string) (ss : list (option string)) : list string :=
  match ks, ss with
  | k :: kr, Some s :: sr => (QuoteJSONString k ++ ": " ++ s) :: members kr sr
  | _ :: kr, None :: sr => members kr sr
  | _, _ => []
  end.

Definition elements (ss : list (option string)) : list string :=
  map (fun s => match s with Some x => x | None => "null" end) ss.

Definition wrap (open close stepback indent : string) (partial : list string) : string :=
  match partial with
  | [] => open ++ close
  | _ => open ++ NL ++ indent ++ join ("," ++ NL ++ indent) partial
         ++ NL ++ stepback ++ close
  end.

(** [SerializeJSONProperty] on the value read from the holder: the replacer
    runs first, then the value is written by type.  [stack] is the list of
    objects being written, which raises on a cycle. *)
Fixpoint SerializeJSONProperty (fuel : nat) (h : heap) (stack : list addr)
    (indent : string) (seen : list addr) (v : value)
  : outcome (option string * list addr) :=
  match fuel with
  | O => OutOfFuel
  | S fuel' =>
      let (value, seen) := replacer seen v in
      match value with
      | VUndefined => Returns (None, seen)
      | VNull => Returns (Some "null", seen)
      | VBool true => Returns (Some "true", seen)
      | VBool false => Returns (Some "false", seen)
      | VNumber n => Returns (Some (Number_toString n), seen)
      | VString s => Returns (Some (QuoteJSONString s), seen)
      | VBigInt _ => Throws bigint_error
      | VRef a =>
          if mem_addr a stack then Throws circular_error
          else
            let stepback := indent in
            let indent := indent ++ gap in
            let ser := SerializeJSONProperty fuel' h (a :: stack) indent in
            match nth_error h a with
            | Some (OArray els) =>
                match serialize_each ser seen els with
                | Returns (ss, seen') =>
                    Returns (Some (wrap "[" "]" stepback indent (elements ss)), seen')
                | Throws e => Throws e
                | OutOfFuel => OutOfFuel
                end
            | Some o =>
                let es := object_entries o in
                match serialize_each ser seen (map snd es) with
                | Returns (ss, seen') =>
                    Returns (Some (wrap "{" "}" stepback indent (members (map fst es) ss)), seen')
                | Throws e => Throws e
                | OutOfFuel => OutOfFuel
                end
            | None => Returns (Some "{}", seen)
            end
      end
  end.

(** [JSON.stringify(obj, replacer, 2)] with a fresh [WeakSet]; every object
    written is new to the set, so one unit of fuel per heap object and one
    for the root are enough. *)
Definition JSON_stringify (h : heap) (obj : value) : outcome (option string) :=
  match SerializeJSONProperty (S (List.length h)) h [] "" [] obj with
  | Returns (s, _) => Returns s
  | Throws e => Throws e
  | OutOfFuel => OutOfFuel
  end.

(** [a || b] on two strings. *)
Definition or_string (a b : string) : string :=
  if String.eqb a "" then b else a.

(** [formatDebugObject]; [None] only if the serialiser ran out of fuel. *)
Definition formatDebugObject (h : heap) (obj : value) : option string :=
  if negb (truthy obj) || (List.length (Object_keys h obj) =? 0)%nat then Some ""
  else
    match as_Error h obj with
    | Some (stack, message) => Some (NL ++ or_string stack message)
    | None =>
        match as_Error h (Get h obj "error") with
        | Some (stack, message) => Some (NL ++ or_string stack message)
        | None =>
            match JSON_stringify h obj with
            | Returns (Some s) => Some (NL ++ s)
            | Returns None => Some (NL ++ "undefined")
            | Throws err => Some (NL ++ "[Unable to stringify object: " ++ err ++ "]")
            | OutOfFuel => None
            end
        end
    end.

(** ** The formatter *)

(** What [new Date()] reads off the local clock. *)
Record Date := mkDate {
  getDate : Z;
  getMonth : Z;
  getHours : Z;
  getMinutes : Z;
  getSeconds : Z;
  getMilliseconds : Z
}.

Definition valid_Date (d : Date) : Prop :=
  (1 <= getDate d <= 31 /\ 0 <= getMonth d <= 11 /\ 0 <= getHours d <= 23 /\
   0 <= getMinutes d <= 59 /\ 0 <= getSeconds d <= 59 /\
   0 <= getMilliseconds d <= 999)%Z.

Definition formatTime (now : Date) : string :=
  let day := padStart 2 "0" (Number_toString (getDate now)) in
  let month := padStart 2 "0" (Number_toString (getMonth now + 1)) in
  let hours := padStart 2 "0" (Number_toString (getHours now)) in
  let minutes := padStart 2 "0" (Number_toString (getMinutes now)) in
  let seconds := padStart 2 "0" (Number_toString (getSeconds now)) in
  let ms := padStart 3 "0" (Number_toString (getMilliseconds now)) in
  ESC ++ "[2m[" ++ month ++ "/" ++ day ++ " " ++ hours ++ ":" ++ minutes
      ++ ":" ++ seconds ++ "." ++ ms ++ "]" ++ ESC ++ "[0m".

Definition ToInt32 (z : Z) : Z :=
  let m := (z mod 4294967296)%Z in
  if (m <? 2147483648)%Z then m else (m - 4294967296)%Z.

(** The loop of [getModuleColor]: [hash << 5] is a 32-bit shift, the
    subtraction and the addition are those of numbers. *)
Fixpoint hash_loop (s : string) (hash : Z) : Z :=
  match s with
  | EmptyString => hash
  | String c r =>
      hash_loop r (Z.of_nat (nat_of_ascii c) + (ToInt32 (ToInt32 hash * 32) - hash))%Z
  end.

(** [%] truncates toward zero, as [Z.rem]. *)
Definition getModuleColor (moduleName : string) : Z :=
  Z.abs (Z.rem (hash_loop moduleName 0) 360).

(** [LogContext] declares [module?: string] and [userId?: string], and the
    formatter is modelled on contexts that keep to it: [context.module] and
    [context.userId] read as a string, with the empty string for undefined
    and for a missing key, which the two tests [||] and [?:] treat alike.
    A value of another type under these keys is outside this reading (the
    code would write its string form); [declared_string] below says that a
    context has none. *)
Definition string_field (k : string) (context : props) : string :=
  match get k context with
  | Some (VString s) => s
  | _ => ""
  end.

Definition level_is_debug (l : LogLevel) : bool :=
  match l with debug => true | _ => false end.
Definition level_is_error (l : LogLevel) : bool :=
  match l with error => true | _ => false end.

Section Formatter.

(** [channel d] stands for
    [Math.round(127 + 127 * Math.sin(d * Math.PI / 180))], a floating-point
    computation. *)
Variable channel : Z -> Z.

Definition moduleColor (moduleHue : Z) : string :=
  ESC ++ "[38;2;" ++ Number_toString (channel moduleHue) ++ ";"
      ++ Number_toString (channel (moduleHue + 120)) ++ ";"
      ++ Number_toString (channel (moduleHue + 240)) ++ "m".

Definition userPart (context : props) : string :=
  let userId := string_field "userId" context in
  if truthy (VString userId) then " " ++ ESC ++ "[35m[" ++ userId ++ "]" ++ ESC ++ "[0m"
  else "".

Definition levelStr (level : LogLevel) : string :=
  padEnd 10 " " (LEVEL_COLORS level ++ toUpperCase (level_name level) ++ " " ++ ESC ++ "[0m").

(** The object the error branch builds: the inner literal is allocated at
    the first free address and the outer one after it. *)
Definition errorContext (context : props) : props :=
  set "module" VUndefined (spread context).

Definition errorData (h : heap) (context : props) (data : value) : props :=
  set "context" (VRef (List.length h)) (CopyDataProperties [] (own_enumerable h data)).

Definition error_heap (h : heap) (context : props) (data : value) : heap :=
  (h ++ [OObject (errorContext context); OObject (errorData h context data)])%list.

Definition contextData (context : props) : props :=
  delete "module" (spread context).

Definition option_app (a b : option string) : option string :=
  match a, b with
  | Some x, Some y => Some (x ++ y)
  | _, _ => None
  end.

(** The [debugData] of [formatLogMessage]. *)
Definition debugData (h : heap) (level : LogLevel) (context : props) (data : value)
  : option string :=
  if level_is_debug level then
    let h1 := (h ++ [OObject (contextData context)])%list in
    let d1 :=
      if (0 <? List.length (ownKeys (contextData context)))%nat
      then formatDebugObject h1 (VRef (List.length h))
      else Some "" in
    let d2 := if truthy data then formatDebugObject h1 data else Some "" in
    option_app d1 d2
  else if level_is_error level then
    let h2 := error_heap h context data in
    if (0 <? List.length (ownKeys (errorData h context data)))%nat
    then formatDebugObject h2 (VRef (S (List.length h)))
    else Some ""
  else if truthy data then formatDebugObject h data
  else Some "".

(** Everything of the line but the timestamp and the payload. *)
Definition line_head (level : LogLevel) (context : props) (message : string) : string :=
  let module := or_string (string_field "module" context) "app" in
  let moduleHue := getModuleColor module in
  " " ++ levelStr level ++ moduleColor moduleHue ++ "[" ++ module ++ "]"
      ++ ESC ++ "[0m" ++ userPart context ++ " " ++ message.

Definition formatLogMessage (now : Date) (h : heap) (level : LogLevel)
    (context : props) (message : string) (data : value) : option string :=
  match debugData h level context data with
  | Some payload => Some (formatTime now ++ line_head level context message ++ payload)
  | None => None
  end.

End Formatter.

(** ** The logger *)

Inductive Sink := console_error | console_warn | console_debug | console_log.

Record Logger := mkLogger { context : addr }.

(** The heap, the [Logger] instances (a [Logger] value is an index into
    them) and what was written to the console, oldest first. *)
Record World := mkWorld {
  objects : heap;
  instances : list Logger;
  console : list (Sink * string)
}.

Definition context_of (w : World) (this : nat) : option props :=
  match nth_error (instances w) this with
  | Some lg =>
      match nth_error (objects w) (context lg) with
      | Some (OObject ps) => Some ps
      | _ => None
      end
  | None => None
  end.

Fixpoint update {A : Type} (i : nat) (x : A) (l : list A) : list A :=
  match l, i with
  | [], _ => []
  | _ :: r, O => x :: r
  | y :: r, S j => y :: update j x r
  end.

(** [new Logger(module)]: allocates the context [{ module }] and the
    instance. *)
Definition new_Logger (module : string) (w : World) : nat * World :=
  (List.length (instances w),
   mkWorld (objects w ++ [OObject [("module", VString module)]])
           (instances w ++ [mkLogger (List.length (objects w))])
           (console w))%list.

(** The default export. *)
Definition default_world : World := snd (new_Logger "app" (mkWorld [] [] [])).

Definition sink_of (level : LogLevel) : Sink :=
  match level with
  | error => console_error
  | warn => console_warn
  | debug => console_debug
  | info => console_log
  end.

(** [Logger.log]; [None] if [this] is no logger of the world. *)
Definition log (channel : Z -> Z) (env : Env) (now : Date) (this : nat)
    (level : LogLevel) (message : string) (data : value) (w : World)
  : option World :=
  match context_of w this with
  | None => None
  | Some ctx =>
      if negb (shouldLog env level) then Some w
      else
        match formatLogMessage channel now (objects w) level ctx message data with
        | Some formattedMessage =>
            Some (mkWorld (objects w) (instances w)
                          (console w ++ [(sink_of level, formattedMessage)])%list)
        | None => None
        end
  end.

(** [userId || undefined] *)
Definition userId_or_undefined (userId : option string) : value :=
  match userId with
  | Some s => if truthy (VString s) then VString s else VUndefined
  | None => VUndefined
  end.

Definition setUserId (this : nat) (userId : option string) (w : World) : option World :=
  match context_of w this with
  | None => None
  | Some ctx =>
      let ctx' := set "userId" (userId_or_undefined userId) (spread ctx) in
      Some (mkWorld (objects w ++ [OObject ctx'])
                    (update this (mkLogger (List.length (objects w))) (instances w))
                    (console w))%list
  end.

(** [options.module] as the constructor's argument: its default applies
    to [undefined]. *)
Definition module_argument (options : props) : string :=
  match get "module" options with
  | Some (VString s) => s
  | _ => "app"
  end.

(** [Logger.child]; [options] are the properties of the argument. *)
Definition child (this : nat) (options : props) (w : World) : option (nat * World) :=
  match context_of w this with
  | None => None
  | Some ctx =>
      let (logger, w1) := new_Logger (module_argument options) w in
      let ctx' := CopyDataProperties (spread ctx) (own_entries options) in
      Some (logger,
            mkWorld (objects w1 ++ [OObject ctx'])
                    (update logger (mkLogger (List.length (objects w1))) (instances w1))
                    (console w1))%list
  end.

(** * Vocabulary of the properties *)

(** The heap addresses the replacer has not met yet. *)
Definition unseen (h : heap) (seen : list addr) : nat :=
  List.length (filter (fun a => negb (mem_addr a seen)) (seq 0 (List.length h))).

(** What a run of the serialiser may end in: a result with the set grown,
    or the BigInt error; neither the cycle error nor exhaustion. *)
Definition benign {A : Type} (seen : list addr) (r : outcome (A * list addr)) : Prop :=
  match r with
  | Returns (_, seen') => incl seen seen'
  | Throws e => e = bigint_error
  | OutOfFuel => False
  end.

(** For the examples: a colour channel, and the clock at 09:05:03.007 on
    the second of November. *)
Definition sample_channel (d : Z) : Z := 127.
Definition sample_now : Date := mkDate 2 10 9 5 3 7.

(** One call of each level on the root logger, as the tests make them. *)
Definition four_calls (env : Env) : option World :=
  match log sample_channel env sample_now 0 debug "Debug message" VUndefined default_world with
  | Some w1 =>
      match log sample_channel env sample_now 0 info "Info message" VUndefined w1 with
      | Some w2 =>
          match log sample_channel env sample_now 0 warn "Warning message" VUndefined w2 with
          | Some w3 => log sample_channel env sample_now 0 error "Error message" VUndefined w3
          | None => None
          end
      | None => None
      end
  | None => None
  end.

(** The sinks written to, oldest first. *)
Definition sinks_written (w : option World) : list Sink :=
  match w with
  | Some w => map fst (console w)
  | None => []
  end.

(** The root logger after [setUserId('user-123')]. *)
Definition world_with_user : World :=
  match setUserId 0 (Some "user-123") default_world with
  | Some w => w
  | None => default_world
  end.

(** The claim C2 makes of a logger: once [setUserId(null)] has returned,
    its context has no [userId] key. *)
Definition userId_key_absent_after_clear (w : World) (this : nat) : Prop :=
  forall w' ctx',
    setUserId this None w = Some w' ->
    context_of w' this = Some ctx' ->
    get "userId" ctx' = None.

(** A run of [setUserId] calls on one logger. *)
Fixpoint setUserId_calls (this : nat) (ids : list (option string)) (w : World)
  : option World :=
  match ids with
  | [] => Some w
  | id :: r =>
      match setUserId this id w with
      | Some w' => setUserId_calls this r w'
      | None => None
      end
  end.

(** [logger.setUserId('user-123').child({ module: 'user' })] *)
Definition sample_child : nat * World :=
  match child 0 [("module", VString "user")] world_with_user with
  | Some r => r
  | None => (0, world_with_user)
  end.

(** [circular.self = circular], and an object holding a BigInt. *)
Definition circular_heap : heap := [OObject [("self", VRef 0)]].
Definition bigint_heap : heap := [OObject [("count", VBigInt 1)]].

(** The claim C8 makes: the rendered string is a function of the four
    arguments alone. *)
Definition render_is_pure (channel : Z -> Z) : Prop :=
  forall (t1 t2 : Date) (h : heap) (level : LogLevel) (ctx : props)
         (message : string) (data : value),
    formatLogMessage channel t1 h level ctx message data
    = formatLogMessage channel t2 h level ctx message data.

(** The character of a decimal digit. *)
Definition digit (n : Z) : ascii := ascii_of_nat (48 + Z.to_nat n).

(** The decimal digits of a number below 100, and below 1000. *)
Definition two_digits (n : Z) : string :=
  String (digit (n / 10)) (String (digit (n mod 10)) "").
Definition three_digits (n : Z) : string :=
  String (digit (n / 100)) (String (digit ((n / 10) mod 10)) (String (digit (n mod 10)) "")).

(** The claim C9 makes of a rendered line: inside the bracket the day of
    the month comes first and the month second. *)
Definition timestamp_day_then_month (channel : Z -> Z) (now : Date) (h : heap)
    (level : LogLevel) (ctx : props) (message : string) (data : value) : Prop :=
  exists rest,
    formatLogMessage channel now h level ctx message data
    = Some (ESC ++ "[2m[" ++ two_digits (getDate now) ++ "/"
                ++ two_digits (getMonth now + 1) ++ " " ++ rest).

(** [needle] occurs in [hay]. *)
Definition contains (needle hay : string) : bool :=
  match String.index 0 needle hay with
  | Some _ => true
  | None => false
  end.


(** [logger.error('Error occurred', { error: new Error('Test error') })]
    on a logger with a user id and a request id. *)
Definition sample_stack : string :=
  "Error: Test error" ++ NL ++ "    at run (app.js:1:1)".
Definition exception_heap : heap :=
  [OObject [("error", VRef 1)]; OError sample_stack "Test error" []].
Definition request_context : props :=
  [("module", VString "api"); ("userId", VString "user-123");
   ("requestId", VString "r-1")].

(** [logger.error('Request failed', { code: 500 })] *)
Definition status_heap : heap := [OObject [("code", VNumber 500)]].

(** * The leveled methods and further vocabulary *)

(** [Logger.debug], [Logger.info], [Logger.warn] and [Logger.error]. *)
Definition Logger_debug (channel : Z -> Z) (env : Env) (now : Date) (this : nat)
    (message : string) (data : value) (w : World) : option World :=
  log channel env now this debug message data w.

Definition Logger_info (channel : Z -> Z) (env : Env) (now : Date) (this : nat)
    (message : string) (data : value) (w : World) : option World :=
  log channel env now this info message data w.

Definition Logger_warn (channel : Z -> Z) (env : Env) (now : Date) (this : nat)
    (message : string) (data : value) (w : World) : option World :=
  log channel env now this warn message data w.

Definition Logger_error (channel : Z -> Z) (env : Env) (now : Date) (this : nat)
    (message : string) (data : value) (w : World) : option World :=
  log channel env now this error message data w.

(** ** The unified logger of the server-side guide

    The server branch of [UnifiedLogger.log]: it makes a child of the
    package's root logger from the module of its own context and calls the
    leveled method on it.  The client branch posts the call over the network
    and is not modelled. *)
Definition UnifiedLogger_log (channel : Z -> Z) (env : Env) (now : Date)
    (context : props) (level : LogLevel) (message : string) (data : value)
    (w : World) : option World :=
  match child 0 [("module", VString (or_string (string_field "module" context) "app"))] w with
  | Some (serverLogger, w1) =>
      match level with
      | debug => Logger_debug channel env now serverLogger message data w1
      | info => Logger_info channel env now serverLogger message data w1
      | warn => Logger_warn channel env now serverLogger message data w1
      | error => Logger_error channel env now serverLogger message data w1
      end
  | None => None
  end.

(** [UnifiedLogger.setUserId] *)
Definition UnifiedLogger_setUserId (userId : option string) (context : props) : props :=
  set "userId" (userId_or_undefined userId) (spread context).

(** The four names of [LogLevel]. *)
Definition level_names : list string := ["debug"; "info"; "warn"; "error"].

Definition is_upper (c : ascii) : bool :=
  let n := nat_of_ascii c in ((65 <=? n) && (n <=? 90))%nat.

Fixpoint any_char (p : ascii -> bool) (s : string) : bool :=
  match s with
  | EmptyString => false
  | String c r => p c || any_char p r
  end.




(** [needle] is a substring of [hay]. *)
Definition occurs (needle hay : string) : Prop :=
  exists pre post, hay = pre ++ needle ++ post.

(** The pieces of the regular expression the test matches a line against:
    a digit, or one given character. *)
Inductive pattern_item := PDigit | PChar (c : ascii).

Fixpoint matches_prefix (p : list pattern_item) (s : string) : bool :=
  match p, s with
  | [], _ => true
  | PDigit :: p', String c r => is_digit c && matches_prefix p' r
  | PChar x :: p', String c r => Ascii.eqb x c && matches_prefix p' r
  | _ :: _, EmptyString => false
  end.

(** The test's pattern: a bracket, two digits, a slash, two digits, a
    space, the time with colons, a dot, three digits, a bracket. *)
Definition timestamp_pattern : list pattern_item :=
  [PChar "["; PDigit; PDigit; PChar "/"; PDigit; PDigit; PChar " ";
   PDigit; PDigit; PChar ":"; PDigit; PDigit; PChar ":"; PDigit; PDigit;
   PChar "."; PDigit; PDigit; PDigit; PChar "]"].

(** Every logger of the world has a context object in the heap. *)
Definition valid_world (w : World) : Prop :=
  forall this, this < List.length (instances w) ->
               exists ctx, context_of w this = Some ctx.

(** ** Data with accessor properties

    An object literal passed as data may define a property by a getter.
    [{ ...data }] and [JSON.stringify] call the getter to read the property,
    and the call returns a value or throws; [Object.keys] does not call it.
    [Abrupt err] is the throw of a value that [`${err}`] writes as [err]. *)
Inductive completion :=
| Normal (v : value)
| Abrupt (err : string).

Inductive slot :=
| DataSlot (v : value)
| GetterSlot (result : completion).

(** The enumerable own properties of such an object, in creation order. *)
Definition accessor_object := list (string * slot).

Fixpoint get_slot (k : string) (o : accessor_object) : option slot :=
  match o with
  | [] => None
  | (k', s) :: r => if String.eqb k k' then Some s else get_slot k r
  end.

(** [o.k]: the value of a data property, what the getter does, or
    [undefined] for a key the object has not. *)
Definition read_key (k : string) (o : accessor_object) : completion :=
  match get_slot k o with
  | Some (DataSlot v) => Normal v
  | Some (GetterSlot result) => result
  | None => Normal VUndefined
  end.

Definition slot_keys (o : accessor_object) : list string :=
  ownKeys (map (fun ks => (fst ks, VUndefined)) o).

(** [CopyDataProperties] reads the keys in order; the first getter that
    throws ends it. *)
Fixpoint copy_slots (target : props) (keys : list string) (src : accessor_object)
  : outcome props :=
  match keys with
  | [] => Returns target
  | k :: r =>
      match read_key k src with
      | Normal v => copy_slots (set k v target) r src
      | Abrupt e => Throws e
      end
  end.

(** [{ ...data }] *)
Definition spread_accessors (data : accessor_object) : outcome props :=
  copy_slots [] (slot_keys data) data.

(** The properties of the object [JSON.stringify] is given, read and
    written from left to right. *)
Fixpoint serialize_slots
    (ser : list addr -> value -> outcome (option string * list addr))
    (seen : list addr) (keys : list string) (o : accessor_object)
  : outcome (list (option string) * list addr) :=
  match keys with
  | [] => Returns ([], seen)
  | k :: r =>
      match read_key k o with
      | Normal v =>
          match ser seen v with
          | Returns (s, seen1) =>
              match serialize_slots ser seen1 r o with
              | Returns (ss, seen2) => Returns (s :: ss, seen2)
              | Throws e => Throws e
              | OutOfFuel => OutOfFuel
              end
          | Throws e => Throws e
          | OutOfFuel => OutOfFuel
          end
      | Abrupt e => Throws e
      end
  end.

(** [JSON.stringify(obj, replacer, 2)] on an object with accessors.  The
    object is not in the heap and no value refers to it; each of its
    values may meet every object of the heap. *)
Definition JSON_stringify_accessors (h : heap) (obj : accessor_object)
  : outcome (option string) :=
  match serialize_slots (SerializeJSONProperty (S (List.length h)) h [] gap) []
          (slot_keys obj) obj with
  | Returns (ss, _) => Returns (Some (wrap "{" "}" "" gap (members (slot_keys obj) ss)))
  | Throws e => Throws e
  | OutOfFuel => OutOfFuel
  end.

(** [formatDebugObject] on an object with accessors: the key count is
    taken before the [try], the read of [obj.error] and the serialisation
    are inside it. *)
Definition formatDebugObject_accessors (h : heap) (obj : accessor_object)
  : option string :=
  if (List.length (slot_keys obj) =? 0)%nat then Some ""
  else
    match read_key "error" obj with
    | Abrupt err => Some (NL ++ "[Unable to stringify object: " ++ err ++ "]")
    | Normal v =>
        match as_Error h v with
        | Some (stack, message) => Some (NL ++ or_string stack message)
        | None =>
            match JSON_stringify_accessors h obj with
            | Returns (Some s) => Some (NL ++ s)
            | Returns None => Some (NL ++ "undefined")
            | Throws err => Some (NL ++ "[Unable to stringify object: " ++ err ++ "]")
            | OutOfFuel => None
            end
        end
    end.

Definition completed (r : option string) : outcome string :=
  match r with
  | Some s => Returns s
  | None => OutOfFuel
  end.

(** The [debugData] of [formatLogMessage] on such data: at error level the
    spread of [data] comes first, outside any [try], and the object built
    from what it has read is what [formatDebugObject] gets. *)
Definition debugData_accessors (h : heap) (level : LogLevel) (context : props)
    (data : accessor_object) : outcome string :=
  if level_is_debug level then
    let h1 := (h ++ [OObject (contextData context)])%list in
    let d1 :=
      if (0 <? List.length (ownKeys (contextData context)))%nat
      then formatDebugObject h1 (VRef (List.length h))
      else Some "" in
    completed (option_app d1 (formatDebugObject_accessors h1 data))
  else if level_is_error level then
    match spread_accessors data with
    | Returns copied =>
        let errorData := set "context" (VRef (List.length h)) copied in
        let h2 := (h ++ [OObject (errorContext context); OObject errorData])%list in
        if (0 <? List.length (ownKeys errorData))%nat
        then completed (formatDebugObject h2 (VRef (S (List.length h))))
        else Returns ""
    | Throws e => Throws e
    | OutOfFuel => OutOfFuel
    end
  else completed (formatDebugObject_accessors h data).

Definition formatLogMessage_accessors (channel : Z -> Z) (now : Date) (h : heap)
    (level : LogLevel) (context : props) (message : string) (data : accessor_object)
  : outcome string :=
  match debugData_accessors h level context data with
  | Returns payload =>
      Returns (formatTime now ++ line_head channel level context message ++ payload)
  | Throws e => Throws e
  | OutOfFuel => OutOfFuel
  end.

(** [Logger.log] on such data: nothing in it catches what the formatter
    throws, and then nothing is written. *)
Definition log_accessors (channel : Z -> Z) (env : Env) (now : Date) (this : nat)
    (level : LogLevel) (message : string) (data : accessor_object) (w : World)
  : option (outcome World) :=
  match context_of w this with
  | None => None
  | Some ctx =>
      if negb (shouldLog env level) then Some (Returns w)
      else
        match formatLogMessage_accessors channel now (objects w) level ctx message data with
        | Returns formattedMessage =>
            Some (Returns (mkWorld (objects w) (instances w)
                             (console w ++ [(sink_of level, formattedMessage)])%list))
        | Throws e => Some (Throws e)
        | OutOfFuel => Some OutOfFuel
        end
  end.

(** [{ get boom() { throw new Error('no') } }] *)
Definition throwing_getter : accessor_object :=
  [("boom", GetterSlot (Abrupt "Error: no"))].

(** A key of the context holds what [LogContext] declares for it: a string,
    [undefined], or nothing. *)
Definition declared_string (k : string) (context : props) : Prop :=
  match get k context with
  | None | Some VUndefined | Some (VString _) => True
  | Some _ => False
  end.

(** The claim C10 makes of a logger that has no user id: what its calls
    write after [setUserId('')] is what they write without that call. *)
Definition empty_userId_like_absent (channel : Z -> Z) (env : Env) (now : Date)
    (level : LogLevel) (message : string) (data : value) (w : World) (this : nat)
  : Prop :=
  forall w1,
    setUserId this (Some "") w = Some w1 ->
    option_map console (log channel env now this level message data w1)
    = option_map console (log channel env now this level message data w).


(** * Properties *)

(** ** The serialiser terminates and does not raise on cycles *)

Lemma mem_addr_In (a : addr) (l : list addr) : mem_addr a l = true <-> In a l.
Proof.
  unfold mem_addr. rewrite existsb_exists. split.
  - intros [x [Hx E]]. apply Nat.eqb_eq in E. now subst.
  - intros H. exists a. split; [assumption | apply Nat.eqb_refl].
Qed.

Lemma filter_length_le {A : Type} (f g : A -> bool) (l : list A) :
  (forall x, f x = true -> g x = true) ->
  List.length (filter f l) <= List.length (filter g l).
Proof.
  intros Hfg. induction l as [|x l IH]; simpl; [lia|].
  destruct (f x) eqn:Ef.
  - rewrite (Hfg x Ef). simpl. lia.
  - destruct (g x); simpl; lia.
Qed.

Lemma filter_length_lt {A : Type} (f g : A -> bool) (l : list A) (a : A) :
  (forall x, f x = true -> g x = true) ->
  In a l -> f a = false -> g a = true ->
  List.length (filter f l) < List.length (filter g l).
Proof.
  intros Hfg. induction l as [|x l IH]; simpl; intros Hin Hf Hg; [contradiction|].
  destruct Hin as [-> | Hin].
  - rewrite Hf, Hg. simpl.
    pose proof (filter_length_le f g l Hfg). lia.
  - specialize (IH Hin Hf Hg).
    destruct (f x) eqn:Ef.
    + rewrite (Hfg x Ef). simpl. lia.
    + destruct (g x); simpl; lia.
Qed.

Lemma unseen_mono (h : heap) (s s' : list addr) :
  incl s s' -> unseen h s' <= unseen h s.
Proof.
  intros Hincl. unfold unseen. apply filter_length_le.
  intros x Hx. apply negb_true_iff in Hx. apply negb_true_iff.
  destruct (mem_addr x s) eqn:E; [|reflexivity].
  apply mem_addr_In in E. apply Hincl in E. apply mem_addr_In in E. congruence.
Qed.

Lemma unseen_add (h : heap) (s : list addr) (a : addr) :
  a < List.length h -> mem_addr a s = false ->
  unseen h (a :: s) < unseen h s.
Proof.
  intros Ha Hs. unfold unseen. apply filter_length_lt with (a := a).
  - intros x Hx. apply negb_true_iff in Hx. apply negb_true_iff.
    simpl in Hx. apply orb_false_iff in Hx. tauto.
  - apply in_seq. lia.
  - simpl. rewrite Nat.eqb_refl. reflexivity.
  - now rewrite Hs.
Qed.

Lemma unseen_nil (h : heap) : unseen h [] = List.length h.
Proof.
  unfold unseen.
  assert (H : forall l : list nat, filter (fun a => negb (mem_addr a [])) l = l).
  { induction l as [|x l IH]; [reflexivity|].
    cbn [filter]. change (negb (mem_addr x [])) with true. now rewrite IH. }
  rewrite H. apply length_seq.
Qed.

Lemma serialize_each_benign (P : list addr -> Prop)
    (ser : list addr -> value -> outcome (option string * list addr)) :
  (forall s s', incl s s' -> P s -> P s') ->
  (forall seen v, P seen -> benign seen (ser seen v)) ->
  forall vs seen, P seen -> benign seen (serialize_each ser seen vs).
Proof.
  intros Hmono Hser. induction vs as [|v vs IH]; intros seen HP; simpl.
  - apply incl_refl.
  - pose proof (Hser seen v HP) as Hv.
    destruct (ser seen v) as [[s seen1]| e |]; simpl in Hv; try assumption.
    pose proof (IH seen1 (Hmono _ _ Hv HP)) as Hr.
    destruct (serialize_each ser seen1 vs) as [[ss seen2]| e |]; simpl in *; try assumption.
    eapply incl_tran; eassumption.
Qed.

Lemma SerializeJSONProperty_benign (h : heap) :
  forall fuel stack indent seen v,
    unseen h seen < fuel -> incl stack seen ->
    benign seen (SerializeJSONProperty fuel h stack indent seen v).
Proof.
  induction fuel as [|fuel IH]; intros stack indent seen v Hfuel Hstack; [lia|].
  simpl. destruct v; simpl; try apply incl_refl; try reflexivity.
  - destruct b; simpl; apply incl_refl.
  - destruct (mem_addr a seen) eqn:Eseen; simpl; [apply incl_refl|].
    assert (Hnotstack : mem_addr a stack = false).
    { destruct (mem_addr a stack) eqn:E; [|reflexivity].
      apply mem_addr_In in E. apply Hstack in E. apply mem_addr_In in E. congruence. }
    rewrite Hnotstack.
    assert (Hgrow : incl seen (a :: seen)) by (apply incl_tl, incl_refl).
    destruct (nth_error h a) as [o|] eqn:Ha; [|exact Hgrow].
    assert (Hlt : a < List.length h) by (apply nth_error_Some; congruence).
    pose proof (unseen_add h seen a Hlt Eseen) as Hless.
    set (P := fun s : list addr => unseen h s < fuel /\ incl (a :: stack) s).
    assert (Hmono : forall s s', incl s s' -> P s -> P s').
    { intros s s' Hs [H1 H2]. split.
      - pose proof (unseen_mono h s s' Hs). lia.
      - eapply incl_tran; eassumption. }
    assert (Hser : forall s x, P s ->
              benign s (SerializeJSONProperty fuel h (a :: stack) (indent ++ gap) s x)).
    { intros s x [H1 H2]. apply IH; assumption. }
    assert (HP : P (a :: seen)).
    { split; [lia|]. intros x [->|Hx]; [now left | right; now apply Hstack]. }
    assert (Hall : forall vs, benign (a :: seen)
              (serialize_each (SerializeJSONProperty fuel h (a :: stack) (indent ++ gap))
                 (a :: seen) vs)).
    { intros vs. exact (serialize_each_benign P _ Hmono Hser vs (a :: seen) HP). }
    destruct o as [ps | els | st msg ps].
    + specialize (Hall (map snd (object_entries (OObject ps)))).
      destruct (serialize_each _ _ _) as [[ss seen']| e |]; simpl in *; try assumption.
      eapply incl_tran; eassumption.
    + specialize (Hall els).
      destruct (serialize_each _ _ _) as [[ss seen']| e |]; simpl in *; try assumption.
      eapply incl_tran; eassumption.
    + specialize (Hall (map snd (object_entries (OError st msg ps)))).
      destruct (serialize_each _ _ _) as [[ss seen']| e |]; simpl in *; try assumption.
      eapply incl_tran; eassumption.
Qed.

Lemma serialize_each_more_fuel
    (ser1 ser2 : list addr -> value -> outcome (option string * list addr)) :
  (forall seen v, ser1 seen v <> OutOfFuel -> ser2 seen v = ser1 seen v) ->
  forall vs seen,
    serialize_each ser1 seen vs <> OutOfFuel ->
    serialize_each ser2 seen vs = serialize_each ser1 seen vs.
Proof.
  intros Hser. induction vs as [|v vs IH]; intros seen H; simpl in *; [reflexivity|].
  destruct (ser1 seen v) as [[s seen1]|e|] eqn:E1.
  - rewrite (Hser seen v) by (rewrite E1; discriminate). rewrite E1.
    rewrite IH; [reflexivity|].
    destruct (serialize_each ser1 seen1 vs) as [[ss seen2]|e|]; [discriminate..|exact H].
  - rewrite (Hser seen v) by (rewrite E1; discriminate). now rewrite E1.
  - contradiction.
Qed.

(** A run that ends gives the same result with any more fuel. *)
Lemma SerializeJSONProperty_more_fuel (h : heap) :
  forall fuel fuel' stack indent seen v,
    fuel <= fuel' ->
    SerializeJSONProperty fuel h stack indent seen v <> OutOfFuel ->
    SerializeJSONProperty fuel' h stack indent seen v
    = SerializeJSONProperty fuel h stack indent seen v.
Proof.
  induction fuel as [|fuel IH]; intros fuel' stack indent seen v Hle H;
    [simpl in H; contradiction|].
  destruct fuel' as [|fuel']; [lia|].
  assert (Hle' : fuel <= fuel') by lia.
  simpl in *. destruct (replacer seen v) as [value seen0].
  destruct value; try reflexivity.
  destruct (mem_addr a stack); [reflexivity|].
  assert (Hall : forall vs,
             serialize_each (SerializeJSONProperty fuel h (a :: stack) (indent ++ gap)) seen0 vs
             <> OutOfFuel ->
             serialize_each (SerializeJSONProperty fuel' h (a :: stack) (indent ++ gap)) seen0 vs
             = serialize_each (SerializeJSONProperty fuel h (a :: stack) (indent ++ gap)) seen0 vs).
  { intros vs. apply serialize_each_more_fuel. intros s x Hx. now apply IH. }
  destruct (nth_error h a) as [[ps|els|st msg ps]|]; try reflexivity.
  - rewrite Hall; [reflexivity|].
    destruct (serialize_each _ _ _) as [[ss seen']|e|]; [discriminate..|now elim H].
  - rewrite Hall; [reflexivity|].
    destruct (serialize_each _ _ _) as [[ss seen']|e|]; [discriminate..|now elim H].
  - rewrite Hall; [reflexivity|].
    destruct (serialize_each _ _ _) as [[ss seen']|e|]; [discriminate..|now elim H].
Qed.

(** The fuel of [JSON_stringify] is enough: more fuel gives its result. *)
Lemma JSON_stringify_fuel_adequate (h : heap) (obj : value) (fuel : nat) :
  S (List.length h) <= fuel ->
  SerializeJSONProperty fuel h [] "" [] obj
  = SerializeJSONProperty (S (List.length h)) h [] "" [] obj.
Proof.
  intros Hle. apply SerializeJSONProperty_more_fuel; [assumption|].
  pose proof (SerializeJSONProperty_benign h (S (List.length h)) [] "" [] obj) as H.
  rewrite unseen_nil in H. specialize (H (Nat.lt_succ_diag_r _) (incl_refl _)).
  intros E. rewrite E in H. exact H.
Qed.

Lemma JSON_stringify_cases (h : heap) (obj : value) :
  (exists r, JSON_stringify h obj = Returns r) \/
  JSON_stringify h obj = Throws bigint_error.
Proof.
  unfold JSON_stringify.
  pose proof (SerializeJSONProperty_benign h (S (List.length h)) [] "" [] obj) as H.
  rewrite unseen_nil in H. specialize (H (Nat.lt_succ_diag_r _) (incl_refl _)).
  destruct (SerializeJSONProperty _ _ _ _ _ _) as [[s seen']| e |]; simpl in H.
  - left. now exists s.
  - right. now subst.
  - contradiction.
Qed.

Lemma formatDebugObject_total (h : heap) (obj : value) :
  exists s, formatDebugObject h obj = Some s.
Proof.
  unfold formatDebugObject.
  destruct (negb (truthy obj) || _); [now eexists|].
  destruct (as_Error h obj) as [[st msg]|]; [now eexists|].
  destruct (as_Error h (Get h obj "error")) as [[st msg]|]; [now eexists|].
  destruct (JSON_stringify_cases h obj) as [[r Hr] | Hr]; rewrite Hr.
  - destruct r; now eexists.
  - now eexists.
Qed.

Lemma debugData_total (h : heap) (level : LogLevel) (ctx : props) (data : value) :
  exists s, debugData h level ctx data = Some s.
Proof.
  unfold debugData.
  destruct (level_is_debug level).
  - destruct (formatDebugObject_total (h ++ [OObject (contextData ctx)])%list
                (VRef (List.length h))) as [s1 H1].
    destruct (formatDebugObject_total (h ++ [OObject (contextData ctx)])%list data)
      as [s2 H2].
    rewrite H1, H2.
    destruct (0 <? _)%nat; destruct (truthy data); simpl; now eexists.
  - destruct (level_is_error level).
    + destruct (0 <? _)%nat; [apply formatDebugObject_total | now eexists].
    + destruct (truthy data); [apply formatDebugObject_total | now eexists].
Qed.

Lemma formatLogMessage_total (channel : Z -> Z) (now : Date) (h : heap)
    (level : LogLevel) (ctx : props) (message : string) (data : value) :
  exists payload,
    debugData h level ctx data = Some payload /\
    formatLogMessage channel now h level ctx message data
    = Some (formatTime now ++ line_head channel level ctx message ++ payload).
Proof.
  destruct (debugData_total h level ctx data) as [s Hs].
  exists s. split; [assumption|]. unfold formatLogMessage. now rewrite Hs.
Qed.

(** ** Property lists *)

Lemma mem_string_In (k : string) (l : list string) : mem_string k l = true <-> In k l.
Proof.
  induction l as [|x l IH]; simpl.
  - split; [discriminate | contradiction].
  - rewrite orb_true_iff, IH, String.eqb_eq. split; intros [H|H]; auto.
Qed.

Lemma get_set_same (k : string) (v : value) (o : props) : get k (set k v o) = Some v.
Proof.
  induction o as [|[k' v'] o IH]; simpl.
  - now rewrite String.eqb_refl.
  - destruct (String.eqb k k') eqn:E; simpl.
    + now rewrite String.eqb_refl.
    + now rewrite E.
Qed.

Lemma get_set_other (k k' : string) (v : value) (o : props) :
  k <> k' -> get k (set k' v o) = get k o.
Proof.
  intros Hne. induction o as [|[k2 v2] o IH]; simpl.
  - apply String.eqb_neq in Hne. now rewrite Hne.
  - destruct (String.eqb k' k2) eqn:E; simpl.
    + apply String.eqb_eq in E. subst k2.
      apply String.eqb_neq in Hne. now rewrite Hne.
    + destruct (String.eqb k k2); [reflexivity | exact IH].
Qed.

Lemma get_None_iff (k : string) (o : props) : get k o = None <-> ~ In k (map fst o).
Proof.
  induction o as [|[k' v'] o IH]; simpl.
  - tauto.
  - destruct (String.eqb k k') eqn:E.
    + apply String.eqb_eq in E. subst. split; [discriminate | intros H; exfalso; auto].
    + apply String.eqb_neq in E. rewrite IH. split.
      * intros H [H1|H1]; [congruence | contradiction].
      * intros H H1. apply H. now right.
Qed.

Lemma get_delete_same (k : string) (o : props) : get k (delete k o) = None.
Proof.
  induction o as [|[k' v'] o IH]; simpl; [reflexivity|].
  destruct (String.eqb k k') eqn:E; simpl; [exact IH | now rewrite E].
Qed.

Lemma get_delete_other (k k' : string) (o : props) :
  k <> k' -> get k (delete k' o) = get k o.
Proof.
  intros Hne. induction o as [|[k2 v2] o IH]; simpl; [reflexivity|].
  destruct (String.eqb k' k2) eqn:E; simpl.
  - apply String.eqb_eq in E. subst k2. apply String.eqb_neq in Hne. now rewrite Hne.
  - now rewrite IH.
Qed.

Lemma In_dedup (k : string) (l : list string) : In k (dedup l) <-> In k l.
Proof.
  induction l as [|x l IH]; simpl; [tauto|].
  rewrite filter_In, IH, negb_true_iff, String.eqb_neq.
  destruct (string_dec x k) as [->|Hne]; [tauto|].
  split; intros [H|H]; auto. tauto.
Qed.

Lemma In_insert_index (x y : N * string) (l : list (N * string)) :
  In x (insert_index y l) <-> x = y \/ In x l.
Proof.
  induction l as [|z l IH]; simpl.
  - split; intros [H|H]; auto.
  - destruct (fst y <=? fst z)%N; simpl; [split; intros [H|H]; auto|].
    rewrite IH. tauto.
Qed.

Lemma In_index_keys (k : string) (l : list string) :
  In k (map snd (index_keys l)) <-> In k l /\ is_index k = true.
Proof.
  unfold is_index. induction l as [|x l IH]; simpl; [tauto|].
  destruct (array_index x) as [n|] eqn:Ex.
  - rewrite in_map_iff. split.
    + intros [[m k'] [Hk Hin]]. simpl in Hk. subst k'.
      apply In_insert_index in Hin. destruct Hin as [Heq | Hin].
      * inversion Heq; subst. rewrite Ex. auto.
      * assert (H : In k (map snd (index_keys l))) by (apply in_map_iff; now exists (m, k)).
        apply IH in H. tauto.
    + intros [[-> | Hin] Hidx].
      * exists (n, k). split; [reflexivity|]. apply In_insert_index. now left.
      * assert (H : In k (map snd (index_keys l))) by (apply IH; auto).
        apply in_map_iff in H. destruct H as [[m k'] [Hk H]]. simpl in Hk. subst k'.
        exists (m, k). split; [reflexivity|]. apply In_insert_index. now right.
  - rewrite IH. split.
    + intros [H1 H2]. auto.
    + intros [[-> | H1] H2]; [rewrite Ex in H2; discriminate | auto].
Qed.

Lemma In_ownKeys (k : string) (o : props) : In k (ownKeys o) <-> In k (map fst o).
Proof.
  unfold ownKeys. rewrite in_app_iff, In_index_keys, filter_In, In_dedup, negb_true_iff.
  destruct (is_index k); split; intros H; intuition congruence.
Qed.

Lemma get_keyed (f : string -> value) (k : string) (ks : list string) :
  get k (map (fun x => (x, f x)) ks) = if mem_string k ks then Some (f k) else None.
Proof.
  induction ks as [|x ks IH]; simpl; [reflexivity|].
  destruct (String.eqb k x) eqn:E; simpl; [|exact IH].
  apply String.eqb_eq in E. now subst.
Qed.

Lemma get_own_entries (k : string) (o : props) : get k (own_entries o) = get k o.
Proof.
  unfold own_entries. rewrite get_keyed.
  destruct (mem_string k (ownKeys o)) eqn:E.
  - unfold read. destruct (get k o) eqn:G; [reflexivity|].
    apply mem_string_In, In_ownKeys in E. apply get_None_iff in G. contradiction.
  - symmetry. apply get_None_iff. intros H. apply In_ownKeys, mem_string_In in H. congruence.
Qed.

(** A spread writes the source's properties over the target's. *)
Lemma get_CopyDataProperties (k : string) (target src : props) :
  get k (CopyDataProperties target src)
  = match get k (rev src) with Some v => Some v | None => get k target end.
Proof.
  unfold CopyDataProperties. revert target.
  induction src as [|[k' v'] src IH]; intros target; simpl; [reflexivity|].
  rewrite IH. clear IH.
  assert (Hrev : get k (rev src ++ [(k', v')])%list
                 = match get k (rev src) with
                   | Some v => Some v
                   | None => if String.eqb k k' then Some v' else None
                   end).
  { induction (rev src) as [|[k2 v2] l IHl]; simpl; [reflexivity|].
    destruct (String.eqb k k2); [reflexivity | exact IHl]. }
  rewrite Hrev. destruct (get k (rev src)); [reflexivity|].
  destruct (String.eqb k k') eqn:E.
  - apply String.eqb_eq in E. subst. apply get_set_same.
  - apply String.eqb_neq in E. now apply get_set_other.
Qed.

Lemma get_rev_keyed (f : string -> value) (k : string) (ks : list string) :
  get k (rev (map (fun x => (x, f x)) ks)) = get k (map (fun x => (x, f x)) ks).
Proof.
  rewrite <- map_rev, !get_keyed.
  destruct (mem_string k ks) eqn:E.
  - apply mem_string_In in E. apply in_rev in E. apply mem_string_In in E. now rewrite E.
  - destruct (mem_string k (rev ks)) eqn:E'; [|reflexivity].
    apply mem_string_In in E'. apply in_rev in E'. apply mem_string_In in E'. congruence.
Qed.

Lemma get_overlay (k : string) (target o : props) :
  get k (CopyDataProperties target (own_entries o))
  = match get k o with Some v => Some v | None => get k target end.
Proof.
  rewrite get_CopyDataProperties. unfold own_entries at 1.
  rewrite get_rev_keyed. fold (own_entries o). now rewrite get_own_entries.
Qed.

Lemma get_spread (k : string) (o : props) : get k (spread o) = get k o.
Proof.
  unfold spread. rewrite get_overlay. now destruct (get k o).
Qed.

(** ** The world of loggers *)

Lemma nth_error_update_same {A : Type} (i : nat) (x : A) (l : list A) :
  i < List.length l -> nth_error (update i x l) i = Some x.
Proof.
  revert i. induction l as [|y l IH]; intros i Hi; simpl in *; [lia|].
  destruct i; simpl; [reflexivity | apply IH; lia].
Qed.

Lemma nth_error_update_other {A : Type} (i j : nat) (x : A) (l : list A) :
  i <> j -> nth_error (update i x l) j = nth_error l j.
Proof.
  revert i j. induction l as [|y l IH]; intros i j Hne; [now destruct i|].
  destruct i, j; simpl; try reflexivity; [congruence | apply IH; congruence].
Qed.

Lemma nth_error_app_old {A : Type} (l l' : list A) (i : nat) (x : A) :
  nth_error l i = Some x -> nth_error (l ++ l')%list i = Some x.
Proof.
  intros H. rewrite nth_error_app1; [assumption|].
  apply nth_error_Some. congruence.
Qed.

Lemma nth_error_app_new {A : Type} (l : list A) (x : A) :
  nth_error (l ++ [x])%list (List.length l) = Some x.
Proof.
  rewrite nth_error_app2 by lia. now rewrite Nat.sub_diag.
Qed.

Lemma context_of_inv (w : World) (this : nat) (ctx : props) :
  context_of w this = Some ctx ->
  exists lg, nth_error (instances w) this = Some lg /\
             nth_error (objects w) (context lg) = Some (OObject ctx).
Proof.
  unfold context_of. intros H.
  destruct (nth_error (instances w) this) as [lg|]; [|discriminate].
  exists lg. split; [reflexivity|].
  destruct (nth_error (objects w) (context lg)) as [[ps| |]|]; try discriminate.
  congruence.
Qed.

Lemma context_of_intro (w : World) (this : nat) (lg : Logger) (ctx : props) :
  nth_error (instances w) this = Some lg ->
  nth_error (objects w) (context lg) = Some (OObject ctx) ->
  context_of w this = Some ctx.
Proof.
  unfold context_of. intros -> ->. reflexivity.
Qed.

Lemma context_of_valid (w : World) (this : nat) (ctx : props) :
  context_of w this = Some ctx -> this < List.length (instances w).
Proof.
  intros H. apply context_of_inv in H. destruct H as [lg [H _]].
  apply nth_error_Some. congruence.
Qed.

(** What [setUserId] does to the world: one new context object, bound to
    [this]; every other logger keeps its context. *)
Lemma setUserId_effect (this : nat) (userId : option string) (w : World) (ctx : props) :
  context_of w this = Some ctx ->
  exists w',
    setUserId this userId w = Some w' /\
    context_of w' this = Some (set "userId" (userId_or_undefined userId) (spread ctx)) /\
    console w' = console w /\
    forall other c, other <> this -> context_of w other = Some c ->
                    context_of w' other = Some c.
Proof.
  intros Hctx. unfold setUserId. rewrite Hctx. eexists. split; [reflexivity|].
  pose proof (context_of_valid _ _ _ Hctx) as Hlt.
  split; [|split; [reflexivity|]].
  - eapply context_of_intro; simpl.
    + now apply nth_error_update_same.
    + simpl. apply nth_error_app_new.
  - intros other c Hne Hc. apply context_of_inv in Hc. destruct Hc as [lg [H1 H2]].
    eapply context_of_intro; simpl.
    + rewrite nth_error_update_other by congruence. exact H1.
    + now apply nth_error_app_old.
Qed.

(** What [child] does: the constructor's context and the merged context
    are new objects, the new instance is bound to the merged one. *)
Lemma child_effect (this : nat) (options : props) (w : World) (ctx : props) :
  context_of w this = Some ctx ->
  exists w',
    child this options w = Some (List.length (instances w), w') /\
    context_of w' (List.length (instances w))
    = Some (CopyDataProperties (spread ctx) (own_entries options)) /\
    console w' = console w /\
    (forall other c, context_of w other = Some c -> context_of w' other = Some c) /\
    (forall lp lc, nth_error (instances w') this = Some lp ->
                   nth_error (instances w') (List.length (instances w)) = Some lc ->
                   context lp <> context lc).
Proof.
  intros Hctx. unfold child. rewrite Hctx. simpl. eexists. split; [reflexivity|].
  assert (Hnew : nth_error
            (update (List.length (instances w))
               (mkLogger (List.length (objects w ++ [OObject [("module", VString (module_argument options))]])%list))
               (instances w ++ [mkLogger (List.length (objects w))])%list)
            (List.length (instances w))
          = Some (mkLogger (List.length (objects w ++ [OObject [("module", VString (module_argument options))]])%list))).
  { apply nth_error_update_same. rewrite length_app. simpl. lia. }
  split; [|split; [reflexivity|split]].
  - eapply context_of_intro; simpl; [exact Hnew|]. simpl. apply nth_error_app_new.
  - intros other c Hc. pose proof (context_of_valid _ _ _ Hc) as Hlt.
    apply context_of_inv in Hc. destruct Hc as [lg [H1 H2]].
    eapply context_of_intro; simpl.
    + rewrite nth_error_update_other by lia. apply nth_error_app_old. exact H1.
    + apply nth_error_app_old, nth_error_app_old. exact H2.
  - simpl. intros lp lc Hp Hc.
    rewrite Hnew in Hc. inversion Hc; subst lc; clear Hc. simpl.
    pose proof (context_of_valid _ _ _ Hctx) as Hlt.
    apply context_of_inv in Hctx. destruct Hctx as [lg [H1 H2]].
    rewrite nth_error_update_other in Hp by lia.
    rewrite (nth_error_app_old _ _ _ _ H1) in Hp. inversion Hp; subst lp.
    assert (context lg < List.length (objects w)) by (apply nth_error_Some; congruence).
    rewrite length_app. simpl. lia.
Qed.

(** ** Level filter *)

Lemma shouldLog_resolved (env : Env) (L M : LogLevel) :
  getLogLevel env = level_name M ->
  shouldLog env L = (ordinal M <=? ordinal L)%Z.
Proof.
  intros H. unfold shouldLog. rewrite H. now destruct L, M.
Qed.

(** A configuration whose lower-case form is no property of
    [LEVEL_VALUES] at all resolves to info. *)
Lemma getLogLevel_fallback (s : string) :
  LEVEL_VALUES (toLowerCase s) = LUndefined -> getLogLevel (Some s) = "info".
Proof.
  intros H. unfold getLogLevel, or_default.
  destruct (String.eqb s "") eqn:E; [reflexivity|]. now rewrite H.
Qed.

Lemma getLogLevel_absent : getLogLevel None = "info".
Proof. reflexivity. Qed.

Lemma toLowerCase_empty (s : string) : toLowerCase s = "" -> s = "".
Proof. destruct s; [reflexivity | discriminate]. Qed.

(** Resolution reads the configuration through [toLowerCase] only. *)
Lemma getLogLevel_case_insensitive (s1 s2 : string) :
  toLowerCase s1 = toLowerCase s2 -> getLogLevel (Some s1) = getLogLevel (Some s2).
Proof.
  intros H. unfold getLogLevel, or_default.
  destruct (String.eqb s1 "") eqn:E1; destruct (String.eqb s2 "") eqn:E2.
  - reflexivity.
  - apply String.eqb_eq in E1. subst s1. symmetry in H. apply toLowerCase_empty in H.
    subst s2. discriminate.
  - apply String.eqb_eq in E2. subst s2. apply toLowerCase_empty in H.
    subst s1. discriminate.
  - now rewrite H.
Qed.

(** C1: for every level L and configured minimum M the filter enables L
    exactly when the ordinal of L is at least that of M; a log call below
    the minimum writes nothing, a call at or above it appends exactly one
    line, on the sink of its level, and changes nothing else. *)
Theorem level_filter_threshold :
  forall (channel : Z -> Z) (env : Env) (now : Date) (this : nat) (L M : LogLevel)
         (message : string) (data : value) (w : World) (ctx : props),
    getLogLevel env = level_name M ->
    context_of w this = Some ctx ->
    (shouldLog env L = true <-> (ordinal M <= ordinal L)%Z) /\
    exists w',
      log channel env now this L message data w = Some w' /\
      objects w' = objects w /\ instances w' = instances w /\
      ((ordinal L < ordinal M)%Z -> console w' = console w) /\
      ((ordinal M <= ordinal L)%Z ->
       exists line,
         formatLogMessage channel now (objects w) L ctx message data = Some line /\
         console w' = (console w ++ [(sink_of L, line)])%list).
Proof.
  intros channel env now this L M message data w ctx Hcfg Hctx.
  pose proof (shouldLog_resolved env L M Hcfg) as Hs.
  split.
  - rewrite Hs. apply Z.leb_le.
  - unfold log. rewrite Hctx, Hs.
    destruct (ordinal M <=? ordinal L)%Z eqn:E; simpl.
    + destruct (formatLogMessage_total channel now (objects w) L ctx message data)
        as [payload [_ Hline]].
      rewrite Hline. eexists. split; [reflexivity|]. simpl.
      repeat split; try reflexivity.
      * apply Z.leb_le in E. lia.
      * intros _. eexists. split; reflexivity.
    + exists w. apply Z.leb_gt in E. repeat split; try reflexivity. lia.
Qed.

(** The scenarios of the test suite. *)
Lemma four_calls_by_configuration :
  sinks_written (four_calls None) = [console_log; console_warn; console_error] /\
  sinks_written (four_calls (Some "undefined")) = [console_log; console_warn; console_error] /\
  sinks_written (four_calls (Some "debug"))
  = [console_debug; console_log; console_warn; console_error] /\
  sinks_written (four_calls (Some "warn")) = [console_warn; console_error] /\
  sinks_written (four_calls (Some "ERROR")) = [console_error] /\
  sinks_written (four_calls (Some "invalid")) = [console_log; console_warn; console_error].
Proof. repeat split; reflexivity. Qed.

Lemma level_filter_threshold_witness :
  getLogLevel (Some "WARN") = level_name warn /\
  context_of default_world 0 = Some [("module", VString "app")] /\
  (shouldLog (Some "WARN") error = true <-> (ordinal warn <= ordinal error)%Z).
Proof.
  split; [reflexivity|]. split; [reflexivity|].
  exact (proj1 (level_filter_threshold sample_channel (Some "WARN") sample_now 0
                  error warn "Error message" VUndefined default_world
                  [("module", VString "app")] eq_refl eq_refl)).
Defined.

(** Outside the inherited names the fallback works: a configuration that
    is no property of [LEVEL_VALUES], and the absent one, filter as info. *)
Lemma unrecognized_behaves_as_info (s : string) (L : LogLevel) :
  LEVEL_VALUES (toLowerCase s) = LUndefined ->
  shouldLog (Some s) L = shouldLog (Some "info") L /\
  shouldLog None L = shouldLog (Some "info") L.
Proof.
  intros H. split; [|reflexivity].
  unfold shouldLog. now rewrite (getLogLevel_fallback s H).
Qed.

(** C5, at a configuration that names an inherited property: resolution
    keeps the name and the filter then rejects every level, where info
    accepts info, warn and error. *)
Theorem inherited_name_disables_every_level :
  getLogLevel (Some "constructor") = "constructor" /\
  (forall L, shouldLog (Some "constructor") L = false) /\
  (forall L, shouldLog (Some "__PROTO__") L = false) /\
  (forall L, shouldLog (Some "info") L = (ordinal info <=? ordinal L)%Z) /\
  shouldLog (Some "constructor") error <> shouldLog (Some "info") error.
Proof.
  split; [reflexivity|].
  split; [intros L; now destruct L|].
  split; [intros L; now destruct L|].
  split; [intros L; now destruct L|].
  discriminate.
Qed.

(** ** Contexts *)

Lemma userPart_falsy (ctx : props) :
  truthy (VString (string_field "userId" ctx)) = false -> userPart ctx = "".
Proof. unfold userPart. now intros ->. Qed.

(** C2 fails on the root logger that had a user id: after
    [setUserId(null)] the context still has the key, bound to
    [undefined]. *)
Lemma setUserId_null_keeps_key :
  ~ userId_key_absent_after_clear world_with_user 0.
Proof.
  intros H.
  specialize (H _ [("module", VString "app"); ("userId", VUndefined)] eq_refl eq_refl).
  discriminate H.
Qed.

(** The kept key shows at debug level, where the context is dumped: a
    logger whose user id was cleared prints an empty object, a logger that
    never had one prints no payload. *)
Lemma cleared_userId_in_debug_payload :
  debugData [] debug [("module", VString "app"); ("userId", VUndefined)] VUndefined
  = Some (NL ++ "{}") /\
  debugData [] debug [("module", VString "app")] VUndefined = Some "".
Proof. split; reflexivity. Qed.

(** C2, amended: [setUserId(null)] rebinds [userId] to [undefined]; the key
    stays an own property of the new context, every other key keeps its
    value, and the formatter, which tests the value and not the key,
    renders no user tag. *)
Theorem setUserId_null_binds_undefined :
  forall (w : World) (this : nat) (ctx : props),
    context_of w this = Some ctx ->
    exists w' ctx',
      setUserId this None w = Some w' /\
      context_of w' this = Some ctx' /\
      get "userId" ctx' = Some VUndefined /\
      In "userId" (ownKeys ctx') /\
      (forall k, k <> "userId" -> get k ctx' = get k ctx) /\
      userPart ctx' = "".
Proof.
  intros w this ctx Hctx.
  destruct (setUserId_effect this None w ctx Hctx) as [w' [Hset [Hnew _]]].
  exists w', (set "userId" VUndefined (spread ctx)).
  assert (Hget : get "userId" (set "userId" VUndefined (spread ctx)) = Some VUndefined)
    by apply get_set_same.
  repeat split; try assumption.
  - apply In_ownKeys.
    destruct (in_dec string_dec "userId" (map fst (set "userId" VUndefined (spread ctx))))
      as [Hin|Hout]; [assumption|].
    apply get_None_iff in Hout. congruence.
  - intros k Hk. rewrite get_set_other by assumption. apply get_spread.
  - apply userPart_falsy. unfold string_field. now rewrite Hget.
Qed.

Lemma setUserId_null_binds_undefined_witness :
  context_of world_with_user 0
  = Some [("module", VString "app"); ("userId", VString "user-123")] /\
  exists w' ctx',
    setUserId 0 None world_with_user = Some w' /\
    context_of w' 0 = Some ctx' /\
    get "userId" ctx' = Some VUndefined /\
    In "userId" (ownKeys ctx') /\
    (forall k, k <> "userId" ->
               get k ctx' = get k [("module", VString "app"); ("userId", VString "user-123")]) /\
    userPart ctx' = "".
Proof.
  split; [reflexivity|].
  exact (setUserId_null_binds_undefined world_with_user 0 _ eq_refl).
Defined.

(** C6: [child(options)], with a module name in [options], returns a new
    logger whose context is the parent's overlaid with [options]: a key of
    [options] has the value [options] gives it, any other key has the
    parent's value, so the parent's [userId] is carried over unless
    [options] binds one; the parent keeps its context. *)
Theorem child_context_overlay :
  forall (w : World) (this : nat) (ctx options : props) (m : string),
    context_of w this = Some ctx ->
    get "module" options = Some (VString m) ->
    exists w' ctx',
      child this options w = Some (List.length (instances w), w') /\
      context_of w (List.length (instances w)) = None /\
      context_of w' (List.length (instances w)) = Some ctx' /\
      (forall k, get k ctx'
                 = match get k options with Some v => Some v | None => get k ctx end) /\
      get "module" ctx' = Some (VString m) /\
      (get "userId" options = None -> get "userId" ctx' = get "userId" ctx) /\
      context_of w' this = Some ctx.
Proof.
  intros w this ctx options m Hctx Hmod.
  destruct (child_effect this options w ctx Hctx) as [w' [Hchild [Hnew [_ [Hold _]]]]].
  exists w', (CopyDataProperties (spread ctx) (own_entries options)).
  assert (Hget : forall k,
             get k (CopyDataProperties (spread ctx) (own_entries options))
             = match get k options with Some v => Some v | None => get k ctx end).
  { intros k. rewrite get_overlay, get_spread. reflexivity. }
  repeat split; try assumption.
  - unfold context_of.
    assert (H : nth_error (instances w) (List.length (instances w)) = None)
      by (apply nth_error_None; lia).
    now rewrite H.
  - now rewrite Hget, Hmod.
  - intros Hno. now rewrite Hget, Hno.
  - now apply Hold.
Qed.

Lemma child_context_overlay_witness :
  context_of world_with_user 0
  = Some [("module", VString "app"); ("userId", VString "user-123")] /\
  get "module" [("module", VString "user")] = Some (VString "user") /\
  exists w' ctx',
    child 0 [("module", VString "user")] world_with_user
    = Some (List.length (instances world_with_user), w') /\
    context_of world_with_user (List.length (instances world_with_user)) = None /\
    context_of w' (List.length (instances world_with_user)) = Some ctx' /\
    (forall k, get k ctx'
               = match get k [("module", VString "user")] with
                 | Some v => Some v
                 | None => get k [("module", VString "app"); ("userId", VString "user-123")]
                 end) /\
    get "module" ctx' = Some (VString "user") /\
    (get "userId" [("module", VString "user")] = None ->
     get "userId" ctx' = get "userId" [("module", VString "app"); ("userId", VString "user-123")]) /\
    context_of w' 0 = Some [("module", VString "app"); ("userId", VString "user-123")].
Proof.
  split; [reflexivity|]. split; [reflexivity|].
  exact (child_context_overlay world_with_user 0 _ [("module", VString "user")] "user"
           eq_refl eq_refl).
Defined.

Lemma setUserId_calls_frame (ids : list (option string)) :
  forall (this other : nat) (w : World) (cthis cother : props),
    other <> this ->
    context_of w this = Some cthis ->
    context_of w other = Some cother ->
    exists w2, setUserId_calls this ids w = Some w2 /\
               context_of w2 other = Some cother.
Proof.
  induction ids as [|id ids IH]; intros this other w cthis cother Hne Hthis Hother; simpl.
  - now exists w.
  - destruct (setUserId_effect this id w cthis Hthis) as [w' [Hset [Hnew [_ Hframe]]]].
    rewrite Hset. eapply IH; eauto.
Qed.

(** C7: a child has a context object of its own: whatever [setUserId]
    calls the parent receives after the child was made, the child's
    context is the one it was made with, and calls on the child leave the
    parent's context as it was. *)
Theorem child_context_independent :
  forall (w : World) (parent : nat) (ctx options : props) (c : nat) (w1 : World)
         (ids : list (option string)),
    context_of w parent = Some ctx ->
    child parent options w = Some (c, w1) ->
    (forall lp lc, nth_error (instances w1) parent = Some lp ->
                   nth_error (instances w1) c = Some lc ->
                   context lp <> context lc) /\
    context_of w1 c = Some (CopyDataProperties (spread ctx) (own_entries options)) /\
    context_of w1 parent = Some ctx /\
    (exists w2, setUserId_calls parent ids w1 = Some w2 /\
                context_of w2 c = context_of w1 c) /\
    (exists w2, setUserId_calls c ids w1 = Some w2 /\
                context_of w2 parent = context_of w1 parent).
Proof.
  intros w parent ctx options c w1 ids Hctx Hchild.
  destruct (child_effect parent options w ctx Hctx)
    as [w' [Hc [Hnew [_ [Hold Hdistinct]]]]].
  rewrite Hc in Hchild. inversion Hchild; subst c w1; clear Hchild.
  pose proof (context_of_valid _ _ _ Hctx) as Hlt.
  pose proof (Hold _ _ Hctx) as Hparent.
  split; [exact Hdistinct|]. split; [exact Hnew|]. split; [exact Hparent|]. split.
  - destruct (setUserId_calls_frame ids parent (List.length (instances w)) w' _ _
                ltac:(lia) Hparent Hnew) as [w2 [H1 H2]].
    exists w2. split; [assumption | congruence].
  - destruct (setUserId_calls_frame ids (List.length (instances w)) parent w' _ _
                ltac:(lia) Hnew Hparent) as [w2 [H1 H2]].
    exists w2. split; [assumption | congruence].
Qed.

Lemma child_context_independent_witness :
  context_of world_with_user 0
  = Some [("module", VString "app"); ("userId", VString "user-123")] /\
  child 0 [("module", VString "user")] world_with_user = Some sample_child /\
  (exists w2, setUserId_calls 0 [None; Some "user-456"] (snd sample_child) = Some w2 /\
              context_of w2 (fst sample_child) = context_of (snd sample_child) (fst sample_child)) /\
  context_of (snd sample_child) (fst sample_child)
  = Some [("module", VString "user"); ("userId", VString "user-123")].
Proof.
  split; [reflexivity|]. split; [reflexivity|]. split; [|reflexivity].
  exact (proj1 (proj2 (proj2 (proj2
    (child_context_independent world_with_user 0 _ [("module", VString "user")]
       (fst sample_child) (snd sample_child) [None; Some "user-456"] eq_refl eq_refl))))).
Defined.

(** ** Serialisation of plain data never raises *)

Lemma visited_reference_replaced (fuel : nat) (h : heap) (stack : list addr)
    (indent : string) (seen : list addr) (a : addr) :
  mem_addr a seen = true ->
  SerializeJSONProperty (S fuel) h stack indent seen (VRef a)
  = Returns (Some (QuoteJSONString "[Circular]"), seen).
Proof. intros H. simpl. now rewrite H. Qed.

(** On plain data, for every heap, cyclic or not, and every value,
    [formatDebugObject] returns a string: the serialiser ends within its
    fuel and never raises the error of a cyclic structure; a reference the
    replacer has met is written as the string [Circular] in brackets; a
    serialisation that raises gives the bracketed diagnostic; rendering a
    line returns for every level and context; and the result is the one
    any larger fuel gives. *)
Lemma plain_serialization_total :
  forall (h : heap) (obj : value),
    (exists s, formatDebugObject h obj = Some s) /\
    ((exists r, JSON_stringify h obj = Returns r) \/
     JSON_stringify h obj = Throws bigint_error) /\
    (forall fuel stack indent seen a,
        mem_addr a seen = true ->
        SerializeJSONProperty (S fuel) h stack indent seen (VRef a)
        = Returns (Some (QuoteJSONString "[Circular]"), seen)) /\
    (forall err,
        truthy obj = true -> Object_keys h obj <> [] ->
        as_Error h obj = None -> as_Error h (Get h obj "error") = None ->
        JSON_stringify h obj = Throws err ->
        formatDebugObject h obj
        = Some (NL ++ "[Unable to stringify object: " ++ err ++ "]")) /\
    (forall channel now level ctx message,
        exists line, formatLogMessage channel now h level ctx message obj = Some line) /\
    (forall fuel,
        S (List.length h) <= fuel ->
        SerializeJSONProperty fuel h [] "" [] obj
        = SerializeJSONProperty (S (List.length h)) h [] "" [] obj).
Proof.
  intros h obj. split; [apply formatDebugObject_total|].
  split; [apply JSON_stringify_cases|].
  split; [intros; now apply visited_reference_replaced|]. split.
  - intros err Ht Hk He Hw Hj. unfold formatDebugObject.
    rewrite Ht, He, Hw, Hj. simpl.
    destruct (Object_keys h obj); [contradiction | reflexivity].
  - split; [|intros fuel; apply JSON_stringify_fuel_adequate].
    intros channel now level ctx message.
    destruct (formatLogMessage_total channel now h level ctx message obj)
      as [payload [_ H]].
    eexists. exact H.
Qed.

Lemma plain_serialization_total_example :
  formatDebugObject circular_heap (VRef 0)
  = Some (NL ++ "{" ++ NL ++ "  " ++ chr 34 ++ "self" ++ chr 34 ++ ": "
             ++ chr 34 ++ "[Circular]" ++ chr 34 ++ NL ++ "}") /\
  truthy (VRef 0) = true /\ Object_keys bigint_heap (VRef 0) <> [] /\
  JSON_stringify bigint_heap (VRef 0) = Throws bigint_error /\
  formatDebugObject bigint_heap (VRef 0)
  = Some (NL ++ "[Unable to stringify object: " ++ bigint_error ++ "]").
Proof.
  split; [reflexivity|]. split; [reflexivity|]. split; [discriminate|].
  split; [reflexivity|].
  exact (proj1 (proj2 (proj2 (proj2 (plain_serialization_total bigint_heap (VRef 0)))))
           bigint_error eq_refl ltac:(discriminate) eq_refl eq_refl eq_refl).
Defined.

(** ** A getter that throws *)

Lemma serialize_slots_ends (h : heap) (o : accessor_object) :
  forall keys seen,
    serialize_slots (SerializeJSONProperty (S (List.length h)) h [] gap) seen keys o
    <> OutOfFuel.
Proof.
  induction keys as [|k keys IH]; intros seen; cbn [serialize_slots]; [discriminate|].
  destruct (read_key k o) as [v|e]; [|discriminate].
  pose proof (SerializeJSONProperty_benign h (S (List.length h)) [] gap seen v) as H.
  assert (Hfuel : unseen h seen < S (List.length h)).
  { pose proof (unseen_mono h [] seen (incl_nil_l seen)) as Hm.
    rewrite unseen_nil in Hm. lia. }
  specialize (H Hfuel (incl_nil_l seen)).
  destruct (SerializeJSONProperty _ _ _ _ _ _) as [[s seen1]|e|]; simpl in H;
    [|intros E; discriminate E|contradiction].
  specialize (IH seen1).
  destruct (serialize_slots _ _ _ _) as [[ss seen2]|e|];
    [intros E; discriminate E..|exact IH].
Qed.

Lemma formatDebugObject_accessors_total (h : heap) (obj : accessor_object) :
  exists s, formatDebugObject_accessors h obj = Some s.
Proof.
  unfold formatDebugObject_accessors.
  destruct (_ =? 0)%nat; [now eexists|].
  destruct (read_key "error" obj) as [v|e]; [|now eexists].
  destruct (as_Error h v) as [[st msg]|]; [now eexists|].
  unfold JSON_stringify_accessors.
  pose proof (serialize_slots_ends h obj (slot_keys obj) []) as H.
  destruct (serialize_slots _ _ _ _) as [[ss seen]|e|];
    [now eexists | now eexists | contradiction].
Qed.

(** Below error level the [try] of [formatDebugObject] is around every
    read of the data. *)
Lemma debugData_accessors_below_error (h : heap) (level : LogLevel) (ctx : props)
    (data : accessor_object) :
  level <> error ->
  exists payload, debugData_accessors h level ctx data = Returns payload.
Proof.
  intros Hl. unfold debugData_accessors.
  destruct level; cbn [level_is_debug level_is_error]; [| | |contradiction].
  - destruct (formatDebugObject_accessors_total (h ++ [OObject (contextData ctx)])%list data)
      as [s2 H2].
    rewrite H2.
    destruct (0 <? _)%nat.
    + destruct (formatDebugObject_total (h ++ [OObject (contextData ctx)])%list
                  (VRef (List.length h))) as [s1 H1].
      rewrite H1. now eexists.
    + now eexists.
  - destruct (formatDebugObject_accessors_total h data) as [s H]. rewrite H. now eexists.
  - destruct (formatDebugObject_accessors_total h data) as [s H]. rewrite H. now eexists.
Qed.

(** C4, at [logger.error('x', { get boom() { throw new Error('no') } })]:
    the call throws what the getter throws and writes nothing, because the
    error branch of [formatLogMessage] spreads [data] outside any [try].
    The [try] of [formatDebugObject] does what the claim says everywhere
    else: a call of the other three levels with the same data returns, and
    so does a call of any level with data that holds no accessor. *)
Theorem getter_that_throws_escapes_error_call :
  forall (channel : Z -> Z) (env : Env) (now : Date) (this : nat) (message : string)
         (w : World) (ctx : props) (data : accessor_object) (e : string),
    context_of w this = Some ctx ->
    spread_accessors data = Throws e ->
    (shouldLog env error = true ->
     log_accessors channel env now this error message data w = Some (Throws e)) /\
    (forall level, level <> error ->
        exists w', log_accessors channel env now this level message data w
                   = Some (Returns w')) /\
    (forall level plain,
        exists w', log channel env now this level message plain w = Some w').
Proof.
  intros channel env now this message w ctx data e Hctx Hspread.
  split; [|split].
  - intros Hs. unfold log_accessors. rewrite Hctx, Hs. cbn [negb].
    unfold formatLogMessage_accessors, debugData_accessors.
    cbn [level_is_debug level_is_error]. now rewrite Hspread.
  - intros level Hl. unfold log_accessors. rewrite Hctx.
    destruct (negb (shouldLog env level)); [now eexists|].
    unfold formatLogMessage_accessors.
    destruct (debugData_accessors_below_error (objects w) level ctx data Hl) as [p Hp].
    rewrite Hp. now eexists.
  - intros level plain. unfold log. rewrite Hctx.
    destruct (negb (shouldLog env level)); [now eexists|].
    destruct (formatLogMessage_total channel now (objects w) level ctx message plain)
      as [payload [_ Hline]].
    rewrite Hline. now eexists.
Qed.

Lemma getter_that_throws_escapes_error_call_witness :
  context_of default_world 0 = Some [("module", VString "app")] /\
  spread_accessors throwing_getter = Throws "Error: no" /\
  shouldLog None error = true /\
  log_accessors sample_channel None sample_now 0 error "x" throwing_getter default_world
  = Some (Throws "Error: no") /\
  log_accessors sample_channel None sample_now 0 info "x" throwing_getter default_world
  = Some (Returns
            (mkWorld (objects default_world) (instances default_world)
               [(console_log,
                 formatTime sample_now
                 ++ line_head sample_channel info [("module", VString "app")] "x"
                 ++ NL ++ "[Unable to stringify object: Error: no]")])).
Proof.
  split; [reflexivity|]. split; [reflexivity|]. split; [reflexivity|].
  split; [|reflexivity].
  exact (proj1 (getter_that_throws_escapes_error_call sample_channel None sample_now 0 "x"
                  default_world _ throwing_getter "Error: no" eq_refl eq_refl) eq_refl).
Defined.

(** Without accessors the two formatters are one: [{ code: 500 }]. *)
Lemma accessors_agree_on_plain_data :
  forall level,
    formatLogMessage_accessors sample_channel sample_now [] level
      [("module", VString "api")] "Request failed" [("code", DataSlot (VNumber 500))]
    = completed (formatLogMessage sample_channel sample_now status_heap level
                   [("module", VString "api")] "Request failed" (VRef 0)).
Proof. intros level. destruct level; reflexivity. Qed.

(** ** Rendering and the clock *)

Lemma length_append (a b : string) :
  String.length (a ++ b) = String.length a + String.length b.
Proof. induction a as [|c a IH]; simpl; [reflexivity | now rewrite IH]. Qed.

Lemma append_assoc (a b c : string) : (a ++ b) ++ c = a ++ (b ++ c).
Proof. induction a as [|x a IH]; simpl; [reflexivity | now rewrite IH]. Qed.

Lemma append_cancel_r (a b c : string) : a ++ c = b ++ c -> a = b.
Proof.
  revert b. induction a as [|x a IH]; intros [|y b] H; simpl in H.
  - reflexivity.
  - apply (f_equal String.length) in H. simpl in H. rewrite length_append in H. lia.
  - apply (f_equal String.length) in H. simpl in H. rewrite length_append in H. lia.
  - inversion H. f_equal. now apply IH.
Qed.

(** C8 fails: the same call a millisecond later renders another string. *)
Lemma render_reads_the_clock : ~ render_is_pure sample_channel.
Proof.
  intros H.
  specialize (H (mkDate 2 10 9 5 3 7) (mkDate 2 10 9 5 3 8) [] info
                [("module", VString "app")] "Test message" VUndefined).
  vm_compute in H. discriminate H.
Qed.

(** C8, amended: the rendered string is determined by the four arguments
    and the timestamp read off the clock: two calls with the same arguments
    return the same string exactly when their timestamps agree; the
    payload does not depend on the clock, and rendering returns its string
    without writing to any sink. *)
Theorem render_pure_up_to_clock :
  forall (channel : Z -> Z) (t1 t2 : Date) (h : heap) (level : LogLevel)
         (ctx : props) (message : string) (data : value),
    (formatLogMessage channel t1 h level ctx message data
     = formatLogMessage channel t2 h level ctx message data
     <-> formatTime t1 = formatTime t2) /\
    exists body,
      formatLogMessage channel t1 h level ctx message data = Some (formatTime t1 ++ body) /\
      formatLogMessage channel t2 h level ctx message data = Some (formatTime t2 ++ body).
Proof.
  intros channel t1 t2 h level ctx message data.
  destruct (formatLogMessage_total channel t1 h level ctx message data)
    as [p1 [Hp1 H1]].
  destruct (formatLogMessage_total channel t2 h level ctx message data)
    as [p2 [Hp2 H2]].
  assert (p2 = p1) by congruence. subst p2.
  split.
  - rewrite H1, H2. split.
    + intros H. apply append_cancel_r with (c := line_head channel level ctx message ++ p1).
      exact (f_equal (fun o => match o with Some s => s | None => EmptyString end) H).
    + intros H. now rewrite H.
  - eexists. split; eassumption.
Qed.

(** ** The timestamp *)

Lemma below_by_cases (P : nat -> bool) (bound : nat) :
  forallb P (seq 0 bound) = true ->
  forall n : Z, (0 <= n < Z.of_nat bound)%Z -> P (Z.to_nat n) = true.
Proof.
  intros H n Hn. rewrite forallb_forall in H. apply H. apply in_seq. lia.
Qed.

Lemma padStart_two_digits (n : Z) :
  (0 <= n < 100)%Z -> padStart 2 "0" (Number_toString n) = two_digits n.
Proof.
  intros Hn.
  pose proof (below_by_cases
    (fun k => String.eqb (padStart 2 "0" (Number_toString (Z.of_nat k)))
                         (two_digits (Z.of_nat k))) 100 eq_refl n Hn) as H.
  simpl in H. rewrite Z2Nat.id in H by lia. now apply String.eqb_eq in H.
Qed.

Lemma padStart_three_digits (n : Z) :
  (0 <= n < 1000)%Z -> padStart 3 "0" (Number_toString n) = three_digits n.
Proof.
  intros Hn.
  pose proof (below_by_cases
    (fun k => String.eqb (padStart 3 "0" (Number_toString (Z.of_nat k)))
                         (three_digits (Z.of_nat k))) 1000 eq_refl n Hn) as H.
  simpl in H. rewrite Z2Nat.id in H by lia. now apply String.eqb_eq in H.
Qed.

(** C9 fails on the second of November: the line starts with 11/02, the
    month first. *)
Lemma timestamp_is_not_day_first :
  ~ timestamp_day_then_month sample_channel sample_now [] info
      [("module", VString "app")] "Test message" VUndefined.
Proof.
  intros [rest H]. vm_compute in H. discriminate H.
Qed.

(** C9, amended: every line rendered at a valid clock reading starts with
    the dim marker and a bracketed timestamp MM/DD HH:MM:SS.mmm: the first
    two-digit field is the month (counted from 1) and the second the day
    of the month, then two digits each of hour, minute and second and three
    of millisecond. *)
Theorem timestamp_month_then_day :
  forall (channel : Z -> Z) (now : Date) (h : heap) (level : LogLevel)
         (ctx : props) (message : string) (data : value),
    valid_Date now ->
    exists rest,
      formatLogMessage channel now h level ctx message data
      = Some (ESC ++ "[2m[" ++ two_digits (getMonth now + 1) ++ "/"
                  ++ two_digits (getDate now) ++ " "
                  ++ two_digits (getHours now) ++ ":"
                  ++ two_digits (getMinutes now) ++ ":"
                  ++ two_digits (getSeconds now) ++ "."
                  ++ three_digits (getMilliseconds now) ++ "]" ++ rest).
Proof.
  intros channel now h level ctx message data (Hd & Hm & Hh & Hmi & Hs & Hms).
  destruct (formatLogMessage_total channel now h level ctx message data)
    as [payload [_ H]].
  exists (ESC ++ "[0m" ++ line_head channel level ctx message ++ payload).
  rewrite H. f_equal. unfold formatTime.
  rewrite !padStart_two_digits, padStart_three_digits by lia.
  now rewrite !append_assoc.
Qed.

Lemma timestamp_month_then_day_witness :
  valid_Date sample_now /\
  exists rest,
    formatLogMessage sample_channel sample_now [] info [("module", VString "app")]
      "Test message" VUndefined
    = Some (ESC ++ "[2m[" ++ two_digits (getMonth sample_now + 1) ++ "/"
                ++ two_digits (getDate sample_now) ++ " "
                ++ two_digits (getHours sample_now) ++ ":"
                ++ two_digits (getMinutes sample_now) ++ ":"
                ++ two_digits (getSeconds sample_now) ++ "."
                ++ three_digits (getMilliseconds sample_now) ++ "]" ++ rest).
Proof.
  assert (Hv : valid_Date sample_now) by (unfold valid_Date; simpl; lia).
  split; [exact Hv|].
  exact (timestamp_month_then_day sample_channel sample_now [] info
           [("module", VString "app")] "Test message" VUndefined Hv).
Defined.

(** ** The payload of an error line *)

Lemma Number_toString_not_error (z : Z) : Number_toString z <> "error".
Proof.
  unfold Number_toString.
  destruct (Z.to_int z) as [d|d]; destruct d; simpl; discriminate.
Qed.

Lemma get_error_indexed (l : list value) :
  forall i, get "error" (rev (indexed_from i l)) = None.
Proof.
  intros i. apply get_None_iff. intros Hin.
  rewrite map_rev in Hin. apply in_rev in Hin. revert i Hin.
  induction l as [|v l IH]; intros i Hin; simpl in Hin; [contradiction|].
  destruct Hin as [H|H]; [|now apply (IH (S i))].
  now apply (Number_toString_not_error (Z.of_nat i)).
Qed.

(** [errorData.error] is [data.error]. *)
Lemma errorData_error (h : heap) (ctx : props) (data : value) :
  read "error" (errorData h ctx data) = Get h data "error".
Proof.
  unfold errorData, read. rewrite get_set_other by discriminate.
  destruct data; simpl; try reflexivity.
  - rewrite get_CopyDataProperties, get_error_indexed. reflexivity.
  - destruct (nth_error h a) as [[ps|els|st msg ps]|]; simpl; try reflexivity.
    + rewrite get_overlay. unfold read. now destruct (get "error" ps).
    + rewrite get_CopyDataProperties, get_error_indexed. reflexivity.
    + rewrite get_overlay. unfold read. now destruct (get "error" ps).
Qed.

Lemma as_Error_extend (h : heap) (o1 o2 : props) (v : value) :
  as_Error (h ++ [OObject o1; OObject o2])%list v = as_Error h v.
Proof.
  destruct v; simpl; try reflexivity.
  destruct (nth_error h a) as [o|] eqn:E.
  - now rewrite (nth_error_app_old _ _ _ _ E).
  - apply nth_error_None in E. rewrite nth_error_app2 by assumption.
    destruct (a - List.length h) as [|[|n]]; simpl; try reflexivity.
    now destruct n.
Qed.

Lemma error_heap_outer (h : heap) (ctx : props) (data : value) :
  nth_error (error_heap h ctx data) (S (List.length h))
  = Some (OObject (errorData h ctx data)).
Proof.
  unfold error_heap. rewrite nth_error_app2 by lia.
  replace (S (List.length h) - List.length h) with 1 by lia. reflexivity.
Qed.


Lemma ownKeys_nonempty (k : string) (v : value) (o : props) :
  get k o = Some v -> (0 <? List.length (ownKeys o))%nat = true.
Proof.
  intros H. apply Nat.ltb_lt.
  assert (Hin : In k (ownKeys o)).
  { apply In_ownKeys. destruct (in_dec string_dec k (map fst o)) as [Hi|Ho]; [assumption|].
    apply get_None_iff in Ho. congruence. }
  destruct (ownKeys o); [contradiction | simpl; lia].
Qed.


(** The error branch hands [formatDebugObject] the combined object, which
    always has its [context] key. *)
Lemma debugData_error (h : heap) (ctx : props) (data : value) :
  debugData h error ctx data
  = formatDebugObject (error_heap h ctx data) (VRef (S (List.length h))).
Proof.
  unfold debugData. simpl.
  now rewrite (ownKeys_nonempty "context" (VRef (List.length h)))
    by apply get_set_same.
Qed.

Lemma formatDebugObject_combined (h : heap) (ctx : props) (data : value) :
  formatDebugObject (error_heap h ctx data) (VRef (S (List.length h)))
  = match as_Error h (Get h data "error") with
    | Some (stack, message) => Some (NL ++ or_string stack message)
    | None =>
        match JSON_stringify (error_heap h ctx data) (VRef (S (List.length h))) with
        | Returns (Some s) => Some (NL ++ s)
        | Returns None => Some (NL ++ "undefined")
        | Throws err => Some (NL ++ "[Unable to stringify object: " ++ err ++ "]")
        | OutOfFuel => None
        end
    end.
Proof.
  unfold formatDebugObject.
  assert (Hkeys : (List.length (Object_keys (error_heap h ctx data)
                                  (VRef (S (List.length h)))) =? 0)%nat = false).
  { unfold Object_keys, own_enumerable. rewrite error_heap_outer. simpl.
    unfold own_entries. rewrite map_map. simpl. rewrite map_id.
    pose proof (ownKeys_nonempty "context" (VRef (List.length h))
                  (errorData h ctx data) (get_set_same _ _ _)) as H.
    apply Nat.ltb_lt in H. apply Nat.eqb_neq. lia. }
  rewrite Hkeys. simpl negb. cbv iota. simpl orb. cbv iota.
  assert (Hself : as_Error (error_heap h ctx data) (VRef (S (List.length h))) = None).
  { unfold as_Error. now rewrite error_heap_outer. }
  rewrite Hself.
  assert (Hget : Get (error_heap h ctx data) (VRef (S (List.length h))) "error"
                 = Get h data "error").
  { unfold Get at 1. rewrite error_heap_outer. apply errorData_error. }
  rewrite Hget. unfold error_heap at 1. rewrite as_Error_extend. reflexivity.
Qed.


(** It is the exception's stack alone; the serialisation of the combined
    object names the request id, the payload does not. *)
Lemma exception_payload_is_stack :
  debugData exception_heap error request_context (VRef 0) = Some (NL ++ sample_stack) /\
  contains "requestId" (NL ++ sample_stack) = false /\
  exists text,
    JSON_stringify (error_heap exception_heap request_context (VRef 0)) (VRef 3)
    = Returns (Some text) /\
    contains "requestId" text = true.
Proof.
  split; [reflexivity|]. split; [reflexivity|].
  eexists. split; [vm_compute; reflexivity | reflexivity].
Qed.

(** What an error-level line is, given its payload. *)
Lemma error_line (channel : Z -> Z) (now : Date) (h : heap) (ctx : props)
    (message : string) (data : value) (payload : string) :
  debugData h error ctx data = Some payload ->
  formatLogMessage channel now h error ctx message data
  = Some ((formatTime now ++ line_head channel error ctx message) ++ payload).
Proof.
  intros Hp. unfold formatLogMessage. rewrite Hp. now rewrite append_assoc.
Qed.

(** When [data.error] is an exception the payload is a newline and its
    stack, or its message if the stack is empty. *)
Lemma error_payload_of_exception (channel : Z -> Z) (now : Date) (h : heap)
    (ctx : props) (message : string) (data : value) (stack msg : string) :
  as_Error h (Get h data "error") = Some (stack, msg) ->
  formatLogMessage channel now h error ctx message data
  = Some ((formatTime now ++ line_head channel error ctx message)
          ++ NL ++ or_string stack msg).
Proof.
  intros He. apply error_line.
  rewrite debugData_error, formatDebugObject_combined. now rewrite He.
Qed.



(** The payload of that call: data and context in one object, the module
    left out. *)
Lemma error_payload_sample :
  debugData status_heap error request_context (VRef 0)
  = Some (NL ++ "{" ++ NL
          ++ "  " ++ QuoteJSONString "code" ++ ": 500," ++ NL
          ++ "  " ++ QuoteJSONString "context" ++ ": {" ++ NL
          ++ "    " ++ QuoteJSONString "userId" ++ ": " ++ QuoteJSONString "user-123" ++ "," ++ NL
          ++ "    " ++ QuoteJSONString "requestId" ++ ": " ++ QuoteJSONString "r-1" ++ NL
          ++ "  }" ++ NL ++ "}").
Proof. reflexivity. Qed.


(** ** The user tag *)

Lemma userPart_truthy (c : props) (id : string) :
  get "userId" c = Some (VString id) -> id <> "" ->
  userPart c = " " ++ ESC ++ "[35m[" ++ id ++ "]" ++ ESC ++ "[0m".
Proof.
  intros Hg Hid. unfold userPart, string_field. rewrite Hg.
  apply String.eqb_neq in Hid. simpl truthy. now rewrite Hid.
Qed.

(** C10, amended: the user tag goes by the truthiness of [userId] and not
    by the key: [setUserId('')] is [setUserId(null)], binding [userId] to
    undefined and leaving every later call the same; a context whose
    [userId] is the empty string renders without a user tag, and a
    non-empty [userId] is rendered as the tag.  The empty string and the
    missing key give the same line at info and warn level, and at every
    level the same line up to the payload; the payloads of debug and error
    level list the key. *)
Theorem user_tag_by_truthiness :
  forall (channel : Z -> Z) (w : World) (this : nat) (ctx : props),
    context_of w this = Some ctx ->
    setUserId this (Some "") w = setUserId this None w /\
    (exists w' ctx',
        setUserId this (Some "") w = Some w' /\
        context_of w' this = Some ctx' /\
        get "userId" ctx' = Some VUndefined /\
        userPart ctx' = "") /\
    (forall w1 w2 env now level message data,
        setUserId this (Some "") w = Some w1 ->
        setUserId this None w = Some w2 ->
        log channel env now this level message data w1
        = log channel env now this level message data w2) /\
    (forall c,
        get "userId" c = Some (VString "") ->
        userPart c = "" /\
        userPart (delete "userId" c) = "" /\
        (forall level message,
            line_head channel level c message
            = line_head channel level (delete "userId" c) message) /\
        (forall now h level message data,
            level = info \/ level = warn ->
            formatLogMessage channel now h level c message data
            = formatLogMessage channel now h level (delete "userId" c) message data)) /\
    (forall c id,
        get "userId" c = Some (VString id) -> id <> "" ->
        userPart c = " " ++ ESC ++ "[35m[" ++ id ++ "]" ++ ESC ++ "[0m" /\
        forall now h level message data,
          exists line,
            formatLogMessage channel now h level c message data = Some line /\
            occurs (" " ++ ESC ++ "[35m[" ++ id ++ "]" ++ ESC ++ "[0m " ++ message) line).
Proof.
  intros channel w this ctx Hctx.
  assert (Hsame : setUserId this (Some "") w = setUserId this None w) by reflexivity.
  split; [exact Hsame|]. split; [|split; [|split]].
  - destruct (setUserId_effect this None w ctx Hctx) as [w' [Hset [Hnew _]]].
    exists w', (set "userId" VUndefined (spread ctx)).
    assert (Hget : get "userId" (set "userId" VUndefined (spread ctx)) = Some VUndefined)
      by apply get_set_same.
    repeat split; try assumption.
    apply userPart_falsy. unfold string_field. now rewrite Hget.
  - intros w1 w2 env now level message data H1 H2. congruence.
  - intros c Hc.
    assert (Hu : userPart c = "")
      by (apply userPart_falsy; unfold string_field; now rewrite Hc).
    assert (Hd : userPart (delete "userId" c) = "")
      by (apply userPart_falsy; unfold string_field; now rewrite get_delete_same).
    assert (Hh : forall level message,
               line_head channel level c message
               = line_head channel level (delete "userId" c) message).
    { intros level message. unfold line_head. rewrite Hu, Hd. unfold string_field.
      rewrite get_delete_other by discriminate. reflexivity. }
    split; [exact Hu|]. split; [exact Hd|]. split; [exact Hh|].
    intros now h level message data Hl. unfold formatLogMessage. rewrite Hh.
    destruct Hl as [-> | ->]; reflexivity.
  - intros c id Hg Hid.
    pose proof (userPart_truthy c id Hg Hid) as Hu.
    split; [exact Hu|].
    intros now h level message data.
    destruct (formatLogMessage_total channel now h level c message data)
      as [payload [_ Hline]].
    eexists. split; [exact Hline|].
    exists (formatTime now ++ " " ++ levelStr level
              ++ moduleColor channel
                   (getModuleColor (or_string (string_field "module" c) "app"))
              ++ "[" ++ or_string (string_field "module" c) "app" ++ "]"
              ++ ESC ++ "[0m"),
           payload.
    unfold line_head. rewrite Hu. rewrite !append_assoc. reflexivity.
Qed.

Lemma user_tag_by_truthiness_witness :
  context_of world_with_user 0
  = Some [("module", VString "app"); ("userId", VString "user-123")] /\
  setUserId 0 (Some "") world_with_user = setUserId 0 None world_with_user /\
  userPart [("module", VString "app"); ("userId", VString "user-123")]
  = " " ++ ESC ++ "[35m[user-123]" ++ ESC ++ "[0m" /\
  userPart [("module", VString "app"); ("userId", VString "")] = "".
Proof.
  split; [reflexivity|].
  pose proof (user_tag_by_truthiness sample_channel world_with_user 0 _ eq_refl) as H.
  split; [exact (proj1 H)|]. split; [|reflexivity].
  exact (proj1 (proj2 (proj2 (proj2 (proj2 H)))
                  [("module", VString "app"); ("userId", VString "user-123")] "user-123"
                  eq_refl ltac:(discriminate))).
Defined.

(** C10 as it is stated fails at the root logger with [LOG_LEVEL=debug]:
    after [setUserId('')] a debug call writes the payload of an object
    with the one key [userId], an empty pair of braces; before it, with no
    [userId] in the context, the same call writes no payload. *)
Lemma empty_userId_shows_in_debug_payload :
  ~ empty_userId_like_absent sample_channel (Some "debug") sample_now debug
      "Debug message" VUndefined default_world 0.
Proof.
  intros H. specialize (H _ eq_refl). vm_compute in H. discriminate H.
Qed.

(** The same of a context that holds the empty string, as
    [child({ module: 'x', userId: '' })] makes it: the payloads of a debug
    and of an error line list the key. *)
Lemma empty_userId_listed_in_payloads :
  debugData [] debug [("module", VString "x"); ("userId", VString "")] VUndefined
  = Some (NL ++ "{" ++ NL ++ "  " ++ QuoteJSONString "userId" ++ ": "
             ++ QuoteJSONString "" ++ NL ++ "}") /\
  debugData [] debug [("module", VString "x")] VUndefined = Some "" /\
  debugData [] error [("module", VString "x"); ("userId", VString "")] VUndefined
  = Some (NL ++ "{" ++ NL ++ "  " ++ QuoteJSONString "context" ++ ": {" ++ NL
             ++ "    " ++ QuoteJSONString "userId" ++ ": " ++ QuoteJSONString "" ++ NL
             ++ "  }" ++ NL ++ "}") /\
  debugData [] error [("module", VString "x")] VUndefined
  = Some (NL ++ "{" ++ NL ++ "  " ++ QuoteJSONString "context" ++ ": {}" ++ NL ++ "}").
Proof. repeat split; reflexivity. Qed.

(** * Further properties *)

(** ** The module hue *)

Lemma ToInt32_range (z : Z) : (-2147483648 <= ToInt32 z < 2147483648)%Z.
Proof.
  unfold ToInt32.
  pose proof (Z.mod_pos_bound z 4294967296 ltac:(lia)) as H.
  destruct (z mod 4294967296 <? 2147483648)%Z eqn:E.
  - apply Z.ltb_lt in E. lia.
  - apply Z.ltb_ge in E. lia.
Qed.

Lemma char_code_bound (c : ascii) : (0 <= Z.of_nat (nat_of_ascii c) <= 255)%Z.
Proof. pose proof (nat_ascii_bounded c). lia. Qed.

Lemma hash_loop_bound (s : string) :
  forall hash,
    (Z.abs (hash_loop s hash)
     <= Z.abs hash + Z.of_nat (String.length s) * 2147483903)%Z.
Proof.
  induction s as [|c s IH]; intros hash.
  - simpl. lia.
  - cbn [hash_loop String.length]. etransitivity; [apply IH|].
    pose proof (ToInt32_range (ToInt32 hash * 32)) as Ht.
    pose proof (char_code_bound c) as Hc.
    lia.
Qed.

(** X1: the hue of every module name is a whole number of degrees from 0
    to 359. *)
Theorem getModuleColor_range :
  forall moduleName : string, (0 <= getModuleColor moduleName < 360)%Z.
Proof.
  intros moduleName. unfold getModuleColor.
  pose proof (Z.rem_bound_abs (hash_loop moduleName 0) 360 ltac:(lia)) as H.
  lia.
Qed.

(** X2: the hash of a module name of n code units never exceeds
    n * (2^31 + 255) in magnitude, so for a name shorter than 2^21 code
    units it stays below 2^53, where the arithmetic of numbers is exact. *)
Theorem getModuleColor_hash_exact :
  forall moduleName : string,
    (Z.abs (hash_loop moduleName 0)
     <= Z.of_nat (String.length moduleName) * 2147483903)%Z /\
    ((Z.of_nat (String.length moduleName) < 2097152)%Z ->
     (Z.abs (hash_loop moduleName 0) < 9007199254740992)%Z).
Proof.
  intros moduleName.
  pose proof (hash_loop_bound moduleName 0) as H. simpl in H.
  split; [exact H|]. intros Hlen. lia.
Qed.

Lemma getModuleColor_hash_exact_witness :
  (Z.of_nat (String.length "auth") < 2097152)%Z /\
  (Z.abs (hash_loop "auth" 0) < 9007199254740992)%Z.
Proof.
  assert (H : (Z.of_nat (String.length "auth") < 2097152)%Z) by (simpl; lia).
  split; [exact H|].
  exact (proj2 (getModuleColor_hash_exact "auth") H).
Defined.

(** ** Which levels a configuration enables *)

Lemma lower_char_not_upper (c : ascii) : is_upper (lower_char c) = false.
Proof. destruct c as [[] [] [] [] [] [] [] []]; reflexivity. Qed.

Lemma toLowerCase_no_upper (s : string) : any_char is_upper (toLowerCase s) = false.
Proof.
  unfold toLowerCase. induction s as [|c s IH]; simpl; [reflexivity|].
  now rewrite lower_char_not_upper, IH.
Qed.

(** A lower-cased string that names a property of [Object.prototype] names
    one of the two written in lower case. *)
Lemma lowered_prototype_key (s : string) :
  mem_string (toLowerCase s) Object_prototype_keys = true ->
  toLowerCase s = "constructor" \/ toLowerCase s = "__proto__".
Proof.
  intros H. apply mem_string_In in H.
  pose proof (toLowerCase_no_upper s) as Hup.
  unfold Object_prototype_keys in H. simpl in H.
  repeat (destruct H as [H|H];
          [ first [ now left | now right
                  | rewrite <- H in Hup; vm_compute in Hup; discriminate Hup ] | ]).
  contradiction.
Qed.

Lemma LEVEL_VALUES_cases (k : string) :
  (In k level_names /\ exists n, LEVEL_VALUES k = LNumber n) \/
  (~ In k level_names /\ mem_string k Object_prototype_keys = true /\
   LEVEL_VALUES k = LInherited) \/
  (~ In k level_names /\ LEVEL_VALUES k = LUndefined).
Proof.
  unfold LEVEL_VALUES, level_names.
  destruct (String.eqb k "debug") eqn:E1;
    [apply String.eqb_eq in E1; subst; left; split; [simpl; auto | now eexists]|].
  destruct (String.eqb k "info") eqn:E2;
    [apply String.eqb_eq in E2; subst; left; split; [simpl; auto | now eexists]|].
  destruct (String.eqb k "warn") eqn:E3;
    [apply String.eqb_eq in E3; subst; left; split; [simpl; auto | now eexists]|].
  destruct (String.eqb k "error") eqn:E4;
    [apply String.eqb_eq in E4; subst; left; split; [simpl; auto 6 | now eexists]|].
  apply String.eqb_neq in E1, E2, E3, E4.
  assert (Hout : ~ In k ["debug"; "info"; "warn"; "error"]).
  { simpl. intros [H|[H|[H|[H|[]]]]]; congruence. }
  destruct (mem_string k Object_prototype_keys) eqn:Em.
  - right. left. auto.
  - right. right. auto.
Qed.

(** What [getLogLevel] returns: a level name, or one of the two inherited
    names, which it returns only for a configuration that spells it. *)
Lemma getLogLevel_cases (env : Env) :
  In (getLogLevel env) level_names \/
  (toLowerCase (or_default env "info") = getLogLevel env /\
   (getLogLevel env = "constructor" \/ getLogLevel env = "__proto__")).
Proof.
  unfold getLogLevel.
  destruct (LEVEL_VALUES_cases (toLowerCase (or_default env "info")))
    as [[Hin [n Hn]] | [[Hout [Hm Hi]] | [Hout Hu]]].
  - rewrite Hn. now left.
  - rewrite Hi. right. split; [reflexivity|]. now apply lowered_prototype_key.
  - rewrite Hu. left. simpl. auto.
Qed.

(** X3: whatever the environment holds, the configured level is one of
    the four level names or one of the inherited names constructor and
    __proto__; no other string is ever returned. *)
Theorem getLogLevel_range :
  forall env : Env,
    In (getLogLevel env)
       ["debug"; "info"; "warn"; "error"; "constructor"; "__proto__"].
Proof.
  intros env. destruct (getLogLevel_cases env) as [H | [_ [H|H]]].
  - unfold level_names in H. simpl in *. intuition.
  - rewrite H. simpl. auto 6.
  - rewrite H. simpl. auto 7.
Qed.

Lemma shouldLog_by_entry (env : Env) (L : LogLevel) :
  shouldLog env L
  = match LEVEL_VALUES (getLogLevel env) with
    | LNumber m => (m <=? ordinal L)%Z
    | _ => false
    end.
Proof.
  unfold shouldLog. destruct (LEVEL_VALUES (getLogLevel env)); now destruct L.
Qed.

(** X4: under every configuration the filter is upward closed: a level
    that is enabled enables every higher level. *)
Theorem shouldLog_upward_closed :
  forall (env : Env) (L L' : LogLevel),
    (ordinal L <= ordinal L')%Z ->
    shouldLog env L = true -> shouldLog env L' = true.
Proof.
  intros env L L' Hle. rewrite !shouldLog_by_entry.
  destruct (LEVEL_VALUES (getLogLevel env)); try discriminate.
  intros H. apply Z.leb_le in H. apply Z.leb_le. lia.
Qed.

Lemma shouldLog_upward_closed_witness :
  (ordinal warn <= ordinal error)%Z /\
  shouldLog (Some "Warn") warn = true /\
  shouldLog (Some "Warn") error = true.
Proof.
  assert (H1 : (ordinal warn <= ordinal error)%Z) by (simpl; lia).
  assert (H2 : shouldLog (Some "Warn") warn = true) by reflexivity.
  split; [exact H1|]. split; [exact H2|].
  exact (shouldLog_upward_closed (Some "Warn") warn error H1 H2).
Defined.

(** X5: error calls are written exactly under the configurations that
    resolve to a level name, and debug calls exactly under those that
    spell debug, in any case. *)
Theorem shouldLog_extremes :
  forall env : Env,
    (shouldLog env error = true <-> In (getLogLevel env) level_names) /\
    (shouldLog env debug = true <-> toLowerCase (or_default env "info") = "debug").
Proof.
  intros env. rewrite !shouldLog_by_entry. split.
  - destruct (getLogLevel_cases env) as [H | [_ [H|H]]].
    + split; [auto|]. intros _. unfold level_names in H. simpl in H.
      destruct H as [H|[H|[H|[H|[]]]]]; rewrite <- H; reflexivity.
    + rewrite H. simpl. split; [discriminate|].
      unfold level_names. simpl. intros [E|[E|[E|[E|[]]]]]; discriminate.
    + rewrite H. simpl. split; [discriminate|].
      unfold level_names. simpl. intros [E|[E|[E|[E|[]]]]]; discriminate.
  - unfold getLogLevel.
    destruct (LEVEL_VALUES_cases (toLowerCase (or_default env "info")))
      as [[Hin [n Hn]] | [[Hout [Hm Hi]] | [Hout Hu]]].
    + rewrite Hn, Hn. unfold level_names in Hin. simpl in Hin.
      destruct Hin as [H|[H|[H|[H|[]]]]]; rewrite <- H in *;
        simpl in Hn; injection Hn as <-; simpl; split; intros E;
        first [reflexivity | discriminate E | (vm_compute in E; discriminate E)].
    + rewrite Hi, Hi. split; [discriminate|]. intros E. exfalso. apply Hout.
      rewrite E. unfold level_names. simpl. auto.
    + rewrite Hu. simpl. split; [discriminate|]. intros E. exfalso. apply Hout.
      rewrite E. unfold level_names. simpl. auto.
Qed.

(** ** What [formatDebugObject] makes of its argument *)

Lemma NL_append_not_empty (s : string) : NL ++ s <> "".
Proof. discriminate. Qed.

Lemma Object_keys_of_props (h : heap) (a : addr) (o : object) :
  nth_error h a = Some o ->
  Object_keys h (VRef a) = map fst (object_entries o).
Proof. intros H. unfold Object_keys, own_enumerable. now rewrite H. Qed.

Lemma keys_of_own_entries (ps : props) : map fst (own_entries ps) = ownKeys ps.
Proof. unfold own_entries. rewrite map_map. simpl. apply map_id. Qed.

(** X6: the payload of a value is empty exactly when the value is falsy or
    has no enumerable own property, and otherwise starts on a new line.  An
    exception without enumerable properties therefore gives no payload at
    all, its stack included. *)
Theorem formatDebugObject_empty :
  forall (h : heap) (obj : value),
    (formatDebugObject h obj = Some ""
     <-> truthy obj = false \/ Object_keys h obj = []) /\
    (truthy obj = true -> Object_keys h obj <> [] ->
     exists rest, formatDebugObject h obj = Some (NL ++ rest)) /\
    (forall a stack message,
        nth_error h a = Some (OError stack message []) ->
        formatDebugObject h (VRef a) = Some "").
Proof.
  intros h obj.
  assert (Hfull : truthy obj = true -> Object_keys h obj <> [] ->
                  exists rest, formatDebugObject h obj = Some (NL ++ rest)).
  { intros Ht Hk. unfold formatDebugObject. rewrite Ht.
    destruct (Object_keys h obj) as [|k ks]; [contradiction|]. simpl.
    destruct (as_Error h obj) as [[st msg]|]; [now eexists|].
    destruct (as_Error h (Get h obj "error")) as [[st msg]|]; [now eexists|].
    destruct (JSON_stringify_cases h obj) as [[r Hr] | Hr]; rewrite Hr.
    - destruct r; now eexists.
    - now eexists. }
  split; [|split; [exact Hfull|]].
  - split.
    + intros H. destruct (truthy obj) eqn:Ht; [|now left]. right.
      destruct (Object_keys h obj) as [|k ks] eqn:Hk; [reflexivity|].
      destruct (Hfull eq_refl ltac:(discriminate)) as [rest Hr].
      rewrite Hr in H. discriminate H.
    + intros [H|H]; unfold formatDebugObject; rewrite H; [reflexivity|].
      simpl. now rewrite orb_true_r.
  - intros a stack message Ha. unfold formatDebugObject.
    rewrite (Object_keys_of_props h a _ Ha). reflexivity.
Qed.

Lemma formatDebugObject_empty_witness :
  truthy (VRef 0) = true /\ Object_keys status_heap (VRef 0) <> [] /\
  exists rest, formatDebugObject status_heap (VRef 0) = Some (NL ++ rest).
Proof.
  assert (H1 : truthy (VRef 0) = true) by reflexivity.
  assert (H2 : Object_keys status_heap (VRef 0) <> []) by discriminate.
  split; [exact H1|]. split; [exact H2|].
  exact (proj1 (proj2 (formatDebugObject_empty status_heap (VRef 0))) H1 H2).
Defined.

Lemma Object_keys_nonempty (h : heap) (a : addr) (o : object) (k : string) (v : value) :
  nth_error h a = Some o ->
  get k (match o with OObject ps => ps | OError _ _ ps => ps | OArray _ => [] end) = Some v ->
  (List.length (Object_keys h (VRef a)) =? 0)%nat = false.
Proof.
  intros Ha Hg. rewrite (Object_keys_of_props h a o Ha).
  destruct o as [ps|els|st msg ps]; simpl in *; try discriminate;
    rewrite keys_of_own_entries;
    pose proof (ownKeys_nonempty k v ps Hg) as H;
    apply Nat.ltb_lt in H; apply Nat.eqb_neq; lia.
Qed.

(** X7: an exception that has an enumerable own property, passed as the
    value or held under the [error] key of an object, is rendered as its
    stack, or as its message when the stack is empty; no other property of
    the value is rendered. *)
Theorem formatDebugObject_exception :
  forall (h : heap) (a : addr) (stack message : string),
    (forall k v ps,
        nth_error h a = Some (OError stack message ((k, v) :: ps)) ->
        formatDebugObject h (VRef a) = Some (NL ++ or_string stack message)) /\
    (forall b ps eps,
        nth_error h b = Some (OObject ps) ->
        get "error" ps = Some (VRef a) ->
        nth_error h a = Some (OError stack message eps) ->
        formatDebugObject h (VRef b) = Some (NL ++ or_string stack message)).
Proof.
  intros h a stack message. split.
  - intros k v ps Ha. unfold formatDebugObject.
    rewrite (Object_keys_nonempty h a _ k v Ha) by (simpl; now rewrite String.eqb_refl).
    simpl. now rewrite Ha.
  - intros b ps eps Hb Hg Ha. unfold formatDebugObject.
    rewrite (Object_keys_nonempty h b _ "error" (VRef a) Hb) by exact Hg.
    simpl. rewrite Hb. unfold read. rewrite Hg. simpl. now rewrite Ha.
Qed.

Lemma formatDebugObject_exception_witness :
  nth_error exception_heap 0 = Some (OObject [("error", VRef 1)]) /\
  get "error" [("error", VRef 1)] = Some (VRef 1) /\
  nth_error exception_heap 1 = Some (OError sample_stack "Test error" []) /\
  formatDebugObject exception_heap (VRef 0) = Some (NL ++ or_string sample_stack "Test error").
Proof.
  split; [reflexivity|]. split; [reflexivity|]. split; [reflexivity|].
  exact (proj2 (formatDebugObject_exception exception_heap 1 sample_stack "Test error")
           0 _ [] eq_refl eq_refl eq_refl).
Defined.

(** ** What the replacer and the quoting do *)






(** One step of the serialiser on an object it has not met. *)
Lemma SerializeJSONProperty_object (fuel : nat) (h : heap) (stack : list addr)
    (indent : string) (seen : list addr) (a : addr) (ps : props) :
  mem_addr a seen = false -> mem_addr a stack = false ->
  nth_error h a = Some (OObject ps) ->
  SerializeJSONProperty (S fuel) h stack indent seen (VRef a)
  = match serialize_each (SerializeJSONProperty fuel h (a :: stack) (indent ++ gap))
            (a :: seen) (map snd (own_entries ps)) with
    | Returns (ss, seen') =>
        Returns (Some (wrap "{" "}" indent (indent ++ gap)
                         (members (map fst (own_entries ps)) ss)), seen')
    | Throws e => Throws e
    | OutOfFuel => OutOfFuel
    end.
Proof. intros H1 H2 H3. simpl. now rewrite H1, H2, H3. Qed.



















(** The delete character in a data string is written as it is. *)
Lemma delete_character_not_escaped :
  JSON_stringify [OObject [("note", VString (chr 127))]] (VRef 0)
  = Returns (Some ("{" ++ NL ++ "  " ++ QuoteJSONString "note" ++ ": "
                   ++ chr 34 ++ chr 127 ++ chr 34 ++ NL ++ "}")).
Proof. reflexivity. Qed.

(** ** The shape of a line *)

Lemma digits_of_two (n : Z) :
  (0 <= n < 100)%Z ->
  is_digit (digit (n / 10)) = true /\ is_digit (digit (n mod 10)) = true.
Proof.
  intros Hn.
  assert (Hall : forallb
            (fun k => is_digit (digit (Z.of_nat k / 10))
                      && is_digit (digit (Z.of_nat k mod 10)))
            (seq 0 100) = true) by (vm_compute; reflexivity).
  pose proof (below_by_cases _ 100 Hall n Hn) as H.
  cbv beta in H. rewrite Z2Nat.id in H by lia.
  apply andb_true_iff in H. exact H.
Qed.

Lemma digits_of_three (n : Z) :
  (0 <= n < 1000)%Z ->
  is_digit (digit (n / 100)) = true /\ is_digit (digit ((n / 10) mod 10)) = true /\
  is_digit (digit (n mod 10)) = true.
Proof.
  intros Hn.
  assert (Hall : forallb
            (fun k => is_digit (digit (Z.of_nat k / 100))
                      && (is_digit (digit ((Z.of_nat k / 10) mod 10))
                          && is_digit (digit (Z.of_nat k mod 10))))
            (seq 0 1000) = true) by (vm_compute; reflexivity).
  pose proof (below_by_cases _ 1000 Hall n Hn) as H.
  cbv beta in H. rewrite Z2Nat.id in H by lia.
  apply andb_true_iff in H. destruct H as [H1 H].
  apply andb_true_iff in H. destruct H as [H2 H3].
  split; [exact H1|]. split; [exact H2 | exact H3].
Qed.

Lemma formatTime_digits (now : Date) :
  valid_Date now ->
  formatTime now
  = ESC ++ "[2m[" ++ two_digits (getMonth now + 1) ++ "/"
        ++ two_digits (getDate now) ++ " " ++ two_digits (getHours now) ++ ":"
        ++ two_digits (getMinutes now) ++ ":" ++ two_digits (getSeconds now) ++ "."
        ++ three_digits (getMilliseconds now) ++ "]" ++ ESC ++ "[0m".
Proof.
  intros (Hd & Hm & Hh & Hmi & Hs & Hms). unfold formatTime.
  now rewrite !padStart_two_digits, padStart_three_digits by lia.
Qed.

Lemma matches_char (c : ascii) (p : list pattern_item) (rest : string) :
  matches_prefix (PChar c :: p) (String c "" ++ rest) = matches_prefix p rest.
Proof. cbn [append matches_prefix]. now rewrite Ascii.eqb_refl. Qed.

Lemma matches_two (n : Z) (p : list pattern_item) (rest : string) :
  (0 <= n < 100)%Z ->
  matches_prefix (PDigit :: PDigit :: p) (two_digits n ++ rest) = matches_prefix p rest.
Proof.
  intros Hn. destruct (digits_of_two n Hn) as [H1 H2].
  unfold two_digits. cbn [append matches_prefix]. now rewrite H1, H2.
Qed.

Lemma matches_three (n : Z) (p : list pattern_item) (rest : string) :
  (0 <= n < 1000)%Z ->
  matches_prefix (PDigit :: PDigit :: PDigit :: p) (three_digits n ++ rest)
  = matches_prefix p rest.
Proof.
  intros Hn. destruct (digits_of_three n Hn) as [H1 [H2 H3]].
  unfold three_digits. cbn [append matches_prefix]. now rewrite H1, H2, H3.
Qed.

Lemma two_digits_length (n : Z) : String.length (two_digits n) = 2.
Proof. reflexivity. Qed.

Lemma three_digits_length (n : Z) : String.length (three_digits n) = 3.
Proof. reflexivity. Qed.

(** X10: at every valid clock reading the rendered line matches the
    regular expression of the test, right after the dim marker, and its
    timestamp, markers included, is 28 code units long. *)
Theorem timestamp_matches_pattern :
  forall (channel : Z -> Z) (now : Date) (h : heap) (level : LogLevel)
         (ctx : props) (message : string) (data : value),
    valid_Date now ->
    String.length (formatTime now) = 28 /\
    exists rest,
      formatLogMessage channel now h level ctx message data
      = Some (ESC ++ "[2m" ++ rest) /\
      matches_prefix timestamp_pattern rest = true.
Proof.
  intros channel now h level ctx message data Hv.
  pose proof (formatTime_digits now Hv) as Ht.
  destruct Hv as (Hd & Hm & Hh & Hmi & Hs & Hms).
  split.
  - rewrite Ht. rewrite !length_append, !two_digits_length, three_digits_length.
    reflexivity.
  - destruct (formatLogMessage_total channel now h level ctx message data)
      as [payload [_ Hline]].
    exists ("[" ++ two_digits (getMonth now + 1) ++ "/"
              ++ two_digits (getDate now) ++ " " ++ two_digits (getHours now) ++ ":"
              ++ two_digits (getMinutes now) ++ ":" ++ two_digits (getSeconds now) ++ "."
              ++ three_digits (getMilliseconds now) ++ "]" ++ ESC ++ "[0m"
              ++ line_head channel level ctx message ++ payload).
    split.
    + rewrite Hline, Ht. f_equal.
    + unfold timestamp_pattern.
      rewrite matches_char, matches_two, matches_char, matches_two, matches_char,
        matches_two, matches_char, matches_two, matches_char, matches_two,
        matches_char, matches_three, matches_char by lia.
      reflexivity.
Qed.

Lemma timestamp_matches_pattern_witness :
  valid_Date sample_now /\ String.length (formatTime sample_now) = 28.
Proof.
  assert (Hv : valid_Date sample_now) by (unfold valid_Date; simpl; lia).
  split; [exact Hv|].
  exact (proj1 (timestamp_matches_pattern sample_channel sample_now [] info
                  [("module", VString "app")] "Test message" VUndefined Hv)).
Defined.

(** X11: [padEnd(10)] never pads the level label, which with its colour
    codes is 14 code units for info and warn and 15 for debug and error:
    the label is the colour, the upper-case name, a space and the reset,
    and what follows it starts one column earlier for info and warn. *)
Theorem levelStr_is_not_padded :
  forall level : LogLevel,
    levelStr level
    = LEVEL_COLORS level ++ toUpperCase (level_name level) ++ " " ++ ESC ++ "[0m" /\
    String.length (levelStr level)
    = 10 + String.length (level_name level).
Proof. intros level. destruct level; split; reflexivity. Qed.

Lemma occurs_intro (pre needle post : string) : occurs needle (pre ++ needle ++ post).
Proof. now exists pre, post. Qed.

Lemma or_string_not_empty (a : string) : or_string a "app" <> "".
Proof.
  unfold or_string. destruct (String.eqb a "") eqn:E; [discriminate|].
  now apply String.eqb_neq in E.
Qed.

(** X12: on a context whose [module] and [userId] are strings, undefined
    or missing, as [LogContext] declares them, the line rendered for plain
    data shows a module tag that is never empty: the bracketed module of
    the context, or [app] when the context has no module, an undefined or
    an empty one. *)
Theorem module_tag_never_empty :
  forall (channel : Z -> Z) (now : Date) (h : heap) (level : LogLevel)
         (ctx : props) (message : string) (data : value),
    declared_string "module" ctx ->
    declared_string "userId" ctx ->
    exists module line,
      module = match get "module" ctx with
               | Some (VString s) => if String.eqb s "" then "app" else s
               | _ => "app"
               end /\
      module <> "" /\
      formatLogMessage channel now h level ctx message data = Some line /\
      occurs ("[" ++ module ++ "]" ++ ESC ++ "[0m") line.
Proof.
  intros channel now h level ctx message data Hm Hu.
  destruct (formatLogMessage_total channel now h level ctx message data)
    as [payload [_ Hline]].
  exists (or_string (string_field "module" ctx) "app"). eexists.
  split; [|split; [apply or_string_not_empty|split; [exact Hline|]]].
  - unfold string_field, or_string.
    destruct (get "module" ctx) as [[| |b|n|s|n|a]|]; reflexivity.
  - exists (formatTime now ++ " " ++ levelStr level
              ++ moduleColor channel
                   (getModuleColor (or_string (string_field "module" ctx) "app"))),
           (userPart ctx ++ " " ++ message ++ payload).
    unfold line_head. rewrite !append_assoc. reflexivity.
Qed.

(** [new Logger('')] *)
Lemma module_tag_never_empty_witness :
  declared_string "module" [("module", VString "")] /\
  declared_string "userId" [("module", VString "")] /\
  exists module line,
    module = "app" /\
    module <> "" /\
    formatLogMessage sample_channel sample_now [] info [("module", VString "")]
      "Test message" VUndefined = Some line /\
    occurs ("[" ++ module ++ "]" ++ ESC ++ "[0m") line.
Proof.
  split; [exact I|]. split; [exact I|].
  exact (module_tag_never_empty sample_channel sample_now [] info [("module", VString "")]
           "Test message" VUndefined I I).
Defined.

(** ** Payloads by level *)

Lemma formatDebugObject_shape (h : heap) (obj : value) :
  (formatDebugObject h obj = Some "" /\
   (truthy obj = false \/ Object_keys h obj = [])) \/
  (truthy obj = true /\ Object_keys h obj <> [] /\
   exists rest, formatDebugObject h obj = Some (NL ++ rest)).
Proof.
  unfold formatDebugObject. destruct (truthy obj); [|left; auto].
  destruct (Object_keys h obj) as [|k ks]; [left; auto|]. right.
  split; [reflexivity|]. split; [discriminate|]. simpl.
  destruct (as_Error h obj) as [[st msg]|]; [now eexists|].
  destruct (as_Error h (Get h obj "error")) as [[st msg]|]; [now eexists|].
  destruct (JSON_stringify_cases h obj) as [[r Hr] | Hr]; rewrite Hr.
  - destruct r; now eexists.
  - now eexists.
Qed.

Lemma props_without_keys (o : props) : (forall k, get k o = None) -> o = [].
Proof.
  destruct o as [|[k v] o]; [reflexivity|]. intros H. specialize (H k).
  simpl in H. rewrite String.eqb_refl in H. discriminate H.
Qed.

Lemma get_contextData (k : string) (ctx : props) :
  get k (contextData ctx) = if String.eqb k "module" then None else get k ctx.
Proof.
  unfold contextData. destruct (String.eqb k "module") eqn:E.
  - apply String.eqb_eq in E. subst. apply get_delete_same.
  - apply String.eqb_neq in E. rewrite get_delete_other by assumption. apply get_spread.
Qed.

(** X13: a payload never runs on the line of the message: at every level
    it is empty or starts with a line feed, and at error level it is never
    empty, with or without data. *)
Theorem payload_starts_on_new_line :
  forall (h : heap) (level : LogLevel) (ctx : props) (data : value),
    (exists payload,
        debugData h level ctx data = Some payload /\
        (payload = "" \/ exists rest, payload = NL ++ rest)) /\
    (exists rest, debugData h error ctx data = Some (NL ++ rest)).
Proof.
  intros h level ctx data.
  assert (Herr : exists rest, debugData h error ctx data = Some (NL ++ rest)).
  { rewrite debugData_error, formatDebugObject_combined.
    destruct (as_Error h (Get h data "error")) as [[st msg]|]; [now eexists|].
    destruct (JSON_stringify_cases (error_heap h ctx data) (VRef (S (List.length h))))
      as [[r Hr] | Hr]; rewrite Hr.
    - destruct r; now eexists.
    - now eexists. }
  split; [|exact Herr].
  assert (Hone : forall h0 obj, exists p,
             formatDebugObject h0 obj = Some p /\
             (p = "" \/ exists rest, p = NL ++ rest)).
  { intros h0 obj.
    destruct (formatDebugObject_shape h0 obj) as [[H _] | [_ [_ [rest H]]]];
      eexists; (split; [exact H|]); [now left | right; now eexists]. }
  destruct level.
  - unfold debugData. cbn [level_is_debug].
    destruct (Hone (h ++ [OObject (contextData ctx)])%list (VRef (List.length h)))
      as [p1 [H1 S1]].
    destruct (Hone (h ++ [OObject (contextData ctx)])%list data) as [p2 [H2 S2]].
    rewrite H1, H2.
    destruct (0 <? _)%nat; destruct (truthy data); cbn [option_app];
      eexists; (split; [reflexivity|]).
    + destruct S1 as [-> | [r1 ->]]; [exact S2 | right].
      exists (r1 ++ p2). now rewrite append_assoc.
    + destruct S1 as [-> | [r1 ->]]; [now left | right].
      exists r1. clear. induction (NL ++ r1) as [|c s IH]; simpl; [reflexivity | now rewrite IH].
    + exact S2.
    + now left.
  - unfold debugData. cbn [level_is_debug level_is_error].
    destruct (truthy data); [apply Hone | eexists; split; [reflexivity | now left]].
  - unfold debugData. cbn [level_is_debug level_is_error].
    destruct (truthy data); [apply Hone | eexists; split; [reflexivity | now left]].
  - destruct Herr as [rest Hr]. eexists. split; [exact Hr|]. right. now eexists.
Qed.

(** X14: at debug level the context is dumped exactly when it has a key
    other than [module], whatever that key is bound to: a logger with only
    a module and a call without data give a bare line, any other key gives
    a payload. *)
Theorem debug_payload_of_context :
  forall (h : heap) (ctx : props) (data : value),
    ((forall k, k <> "module" -> get k ctx = None) ->
     truthy data = false ->
     debugData h debug ctx data = Some "") /\
    (forall k v, k <> "module" -> get k ctx = Some v ->
                 exists rest, debugData h debug ctx data = Some (NL ++ rest)).
Proof.
  intros h ctx data. split.
  - intros Honly Hfalsy. unfold debugData. cbn [level_is_debug]. rewrite Hfalsy.
    assert (E : contextData ctx = []).
    { apply props_without_keys. intros k. rewrite get_contextData.
      destruct (String.eqb k "module") eqn:Ek; [reflexivity|].
      apply Honly. now apply String.eqb_neq. }
    rewrite E. reflexivity.
  - intros k v Hk Hg. unfold debugData. cbn [level_is_debug].
    assert (Hkey : get k (contextData ctx) = Some v).
    { rewrite get_contextData. apply String.eqb_neq in Hk. now rewrite Hk. }
    rewrite (ownKeys_nonempty k v _ Hkey).
    destruct (formatDebugObject_shape (h ++ [OObject (contextData ctx)])%list
                (VRef (List.length h))) as [[_ [Hf | Hn]] | [_ [_ [rest H]]]].
    + discriminate Hf.
    + exfalso.
      pose proof (Object_keys_nonempty (h ++ [OObject (contextData ctx)])%list
                    (List.length h) (OObject (contextData ctx)) k v
                    (nth_error_app_new _ _) Hkey) as Hlen.
      rewrite Hn in Hlen. discriminate Hlen.
    + rewrite H.
      destruct (formatDebugObject_total (h ++ [OObject (contextData ctx)])%list data)
        as [p2 H2].
      rewrite H2. destruct (truthy data); cbn [option_app].
      * exists (rest ++ p2). now rewrite append_assoc.
      * exists rest. f_equal. clear.
        induction (NL ++ rest) as [|c s IH]; simpl; [reflexivity | now rewrite IH].
Qed.

Lemma debug_payload_of_context_witness :
  "userId" <> "module" /\
  get "userId" [("module", VString "app"); ("userId", VUndefined)] = Some VUndefined /\
  exists rest,
    debugData [] debug [("module", VString "app"); ("userId", VUndefined)] VUndefined
    = Some (NL ++ rest).
Proof.
  assert (H1 : "userId" <> "module") by discriminate.
  split; [exact H1|]. split; [reflexivity|].
  exact (proj2 (debug_payload_of_context [] [("module", VString "app"); ("userId", VUndefined)]
                  VUndefined) "userId" VUndefined H1 eq_refl).
Defined.

(** X15: at info and warn level the line shows of the context only its
    module and its user id: a context whose [module] and [userId] are
    strings, undefined or missing, and any context that binds these two
    keys alike, render the same line, whatever other keys they hold. *)
Theorem info_line_ignores_other_keys :
  forall (channel : Z -> Z) (now : Date) (h : heap) (level : LogLevel)
         (ctx ctx' : props) (message : string) (data : value),
    level = info \/ level = warn ->
    declared_string "module" ctx ->
    declared_string "userId" ctx ->
    get "module" ctx = get "module" ctx' ->
    get "userId" ctx = get "userId" ctx' ->
    formatLogMessage channel now h level ctx message data
    = formatLogMessage channel now h level ctx' message data.
Proof.
  intros channel now h level ctx ctx' message data Hl _ _ Hm Hu.
  unfold formatLogMessage, line_head, userPart, string_field.
  rewrite Hm, Hu. destruct Hl as [-> | ->]; reflexivity.
Qed.

Lemma info_line_ignores_other_keys_witness :
  (info = info \/ info = warn) /\
  declared_string "module" request_context /\
  declared_string "userId" request_context /\
  formatLogMessage sample_channel sample_now [] info request_context "m" VUndefined
  = formatLogMessage sample_channel sample_now [] info
      [("module", VString "api"); ("userId", VString "user-123")] "m" VUndefined.
Proof.
  assert (H : info = info \/ info = warn) by (left; reflexivity).
  split; [exact H|]. split; [exact I|]. split; [exact I|].
  exact (info_line_ignores_other_keys sample_channel sample_now [] info request_context
           [("module", VString "api"); ("userId", VString "user-123")] "m" VUndefined
           H I I eq_refl eq_refl).
Defined.

(** ** Loggers at work *)

Lemma length_update {A : Type} (i : nat) (x : A) (l : list A) :
  List.length (update i x l) = List.length l.
Proof.
  revert i. induction l as [|y l IH]; intros i; [now destruct i|].
  destruct i; simpl; [reflexivity | now rewrite IH].
Qed.

(** What an enabled call writes. *)
Lemma log_enabled (channel : Z -> Z) (env : Env) (now : Date) (this : nat)
    (level : LogLevel) (message : string) (data : value) (w : World) (ctx : props) :
  context_of w this = Some ctx ->
  shouldLog env level = true ->
  exists payload,
    log channel env now this level message data w
    = Some (mkWorld (objects w) (instances w)
              (console w ++ [(sink_of level,
                              (formatTime now ++ line_head channel level ctx message
                                 ++ payload)%string)])%list).
Proof.
  intros Hctx Hs. unfold log. rewrite Hctx, Hs. simpl.
  destruct (formatLogMessage_total channel now (objects w) level ctx message data)
    as [payload [_ Hline]].
  rewrite Hline. now exists payload.
Qed.

Lemma line_shows_module (channel : Z -> Z) (now : Date) (level : LogLevel)
    (ctx : props) (message payload : string) :
  occurs ("[" ++ or_string (string_field "module" ctx) "app" ++ "]")
         (formatTime now ++ line_head channel level ctx message ++ payload).
Proof.
  exists (formatTime now ++ " " ++ levelStr level
            ++ moduleColor channel
                 (getModuleColor (or_string (string_field "module" ctx) "app"))),
         (ESC ++ "[0m" ++ userPart ctx ++ " " ++ message ++ payload).
  unfold line_head. rewrite !append_assoc. reflexivity.
Qed.

Lemma line_shows_user (channel : Z -> Z) (now : Date) (level : LogLevel)
    (ctx : props) (message payload id : string) :
  get "userId" ctx = Some (VString id) -> id <> "" ->
  occurs (ESC ++ "[35m[" ++ id ++ "]" ++ ESC ++ "[0m")
         (formatTime now ++ line_head channel level ctx message ++ payload).
Proof.
  intros Hg Hid.
  exists (formatTime now ++ " " ++ levelStr level
            ++ moduleColor channel
                 (getModuleColor (or_string (string_field "module" ctx) "app"))
            ++ "[" ++ or_string (string_field "module" ctx) "app" ++ "]"
            ++ ESC ++ "[0m" ++ " "),
         (" " ++ message ++ payload).
  unfold line_head, userPart, string_field. rewrite Hg.
  apply String.eqb_neq in Hid. simpl truthy. rewrite Hid. simpl negb. cbv iota.
  rewrite !append_assoc. reflexivity.
Qed.

(** X16: after [setUserId(id)] with a non-empty id, an enabled call of the
    logger appends one line, which holds the id in brackets between the
    accent colour and the reset. *)
Theorem user_id_is_shown :
  forall (channel : Z -> Z) (env : Env) (now : Date) (this : nat) (level : LogLevel)
         (message : string) (data : value) (w : World) (ctx : props) (id : string),
    context_of w this = Some ctx ->
    id <> "" ->
    shouldLog env level = true ->
    exists w1 w2 line,
      setUserId this (Some id) w = Some w1 /\
      log channel env now this level message data w1 = Some w2 /\
      console w2 = (console w ++ [(sink_of level, line)])%list /\
      occurs (ESC ++ "[35m[" ++ id ++ "]" ++ ESC ++ "[0m") line.
Proof.
  intros channel env now this level message data w ctx id Hctx Hid Hs.
  destruct (setUserId_effect this (Some id) w ctx Hctx) as [w1 [Hset [Hnew [Hcon _]]]].
  destruct (log_enabled channel env now this level message data w1 _ Hnew Hs)
    as [payload Hlog].
  exists w1. eexists. eexists. split; [exact Hset|]. split; [exact Hlog|].
  split; [simpl; now rewrite Hcon|].
  apply line_shows_user; [|exact Hid].
  rewrite get_set_same. unfold userId_or_undefined. simpl truthy.
  apply String.eqb_neq in Hid. now rewrite Hid.
Qed.

Lemma user_id_is_shown_witness :
  context_of default_world 0 = Some [("module", VString "app")] /\
  "user-123" <> "" /\
  shouldLog None info = true /\
  exists w1 w2 line,
    setUserId 0 (Some "user-123") default_world = Some w1 /\
    log sample_channel None sample_now 0 info "Action performed" VUndefined w1 = Some w2 /\
    console w2 = (console default_world ++ [(sink_of info, line)])%list /\
    occurs (ESC ++ "[35m[" ++ "user-123" ++ "]" ++ ESC ++ "[0m") line.
Proof.
  assert (H : "user-123" <> "") by discriminate.
  split; [reflexivity|]. split; [exact H|]. split; [reflexivity|].
  exact (user_id_is_shown sample_channel None sample_now 0 info "Action performed"
           VUndefined default_world _ "user-123" eq_refl H eq_refl).
Defined.

(** X17: an enabled call on [child(options)] appends one line that holds
    the module of [options] in brackets, or [app] if that module is the
    empty string, and the parent's user id in its brackets when the parent
    has one and [options] binds none. *)
Theorem child_line_shows_module_and_user :
  forall (channel : Z -> Z) (env : Env) (now : Date) (this : nat) (level : LogLevel)
         (message : string) (data : value) (w : World) (ctx options : props)
         (module : string),
    context_of w this = Some ctx ->
    get "module" options = Some (VString module) ->
    shouldLog env level = true ->
    exists w1 w2 line,
      child this options w = Some (List.length (instances w), w1) /\
      log channel env now (List.length (instances w)) level message data w1 = Some w2 /\
      console w2 = (console w ++ [(sink_of level, line)])%list /\
      occurs ("[" ++ or_string module "app" ++ "]") line /\
      (forall id, get "userId" options = None ->
                  get "userId" ctx = Some (VString id) -> id <> "" ->
                  occurs (ESC ++ "[35m[" ++ id ++ "]" ++ ESC ++ "[0m") line).
Proof.
  intros channel env now this level message data w ctx options module Hctx Hmod Hs.
  destruct (child_effect this options w ctx Hctx) as [w1 [Hchild [Hnew [Hcon _]]]].
  destruct (log_enabled channel env now _ level message data w1 _ Hnew Hs)
    as [payload Hlog].
  exists w1. eexists. eexists. split; [exact Hchild|]. split; [exact Hlog|].
  split; [simpl; now rewrite Hcon|].
  assert (Hget : forall k,
             get k (CopyDataProperties (spread ctx) (own_entries options))
             = match get k options with Some v => Some v | None => get k ctx end).
  { intros k. now rewrite get_overlay, get_spread. }
  split.
  - pose proof (line_shows_module channel now level
                  (CopyDataProperties (spread ctx) (own_entries options))
                  message payload) as H.
    unfold string_field in H at 1. rewrite Hget, Hmod in H. exact H.
  - intros id Hno Hid Hne. apply line_shows_user; [|exact Hne].
    now rewrite Hget, Hno.
Qed.

Lemma child_line_shows_module_and_user_witness :
  context_of world_with_user 0
  = Some [("module", VString "app"); ("userId", VString "user-123")] /\
  get "module" [("module", VString "user")] = Some (VString "user") /\
  shouldLog None info = true /\
  exists w1 w2 line,
    child 0 [("module", VString "user")] world_with_user
    = Some (List.length (instances world_with_user), w1) /\
    log sample_channel None sample_now (List.length (instances world_with_user)) info
      "Profile updated" VUndefined w1 = Some w2 /\
    console w2 = (console world_with_user ++ [(sink_of info, line)])%list /\
    occurs ("[" ++ or_string "user" "app" ++ "]") line /\
    (forall id, get "userId" [("module", VString "user")] = None ->
                get "userId" [("module", VString "app"); ("userId", VString "user-123")]
                = Some (VString id) -> id <> "" ->
                occurs (ESC ++ "[35m[" ++ id ++ "]" ++ ESC ++ "[0m") line).
Proof.
  split; [reflexivity|]. split; [reflexivity|]. split; [reflexivity|].
  exact (child_line_shows_module_and_user sample_channel None sample_now 0 info
           "Profile updated" VUndefined world_with_user _ [("module", VString "user")]
           "user" eq_refl eq_refl eq_refl).
Defined.

(** ** The world the methods keep *)

Lemma valid_world_default : valid_world default_world.
Proof.
  intros this Hlt. simpl in Hlt.
  assert (this = 0) by lia. subst. now eexists.
Qed.

Lemma setUserId_keeps_valid (this : nat) (userId : option string) (w : World) :
  valid_world w -> this < List.length (instances w) ->
  exists w' ctx,
    context_of w this = Some ctx /\
    setUserId this userId w = Some w' /\
    valid_world w' /\
    List.length (instances w') = List.length (instances w) /\
    objects w' = (objects w ++ [OObject (set "userId" (userId_or_undefined userId)
                                            (spread ctx))])%list /\
    console w' = console w.
Proof.
  intros Hv Hlt. destruct (Hv this Hlt) as [ctx Hctx].
  destruct (setUserId_effect this userId w ctx Hctx) as [w' [Hset [Hnew [Hcon Hframe]]]].
  exists w', ctx. split; [exact Hctx|]. split; [exact Hset|].
  unfold setUserId in Hset. rewrite Hctx in Hset. injection Hset as <-.
  simpl. rewrite length_update. repeat split.
  intros i Hi. simpl in Hi. rewrite length_update in Hi.
  destruct (Nat.eq_dec i this) as [->|Hne]; [eexists; exact Hnew|].
  destruct (Hv i Hi) as [c Hc]. exists c. now apply Hframe.
Qed.

Lemma child_keeps_valid (this : nat) (options : props) (w : World) :
  valid_world w -> this < List.length (instances w) ->
  exists w' ctx,
    context_of w this = Some ctx /\
    child this options w = Some (List.length (instances w), w') /\
    valid_world w' /\
    List.length (instances w') = S (List.length (instances w)) /\
    objects w'
    = (objects w ++ [OObject [("module", VString (module_argument options))];
                     OObject (CopyDataProperties (spread ctx) (own_entries options))])%list /\
    console w' = console w.
Proof.
  intros Hv Hlt. destruct (Hv this Hlt) as [ctx Hctx].
  destruct (child_effect this options w ctx Hctx) as [w' [Hchild [Hnew [Hcon [Hold _]]]]].
  exists w', ctx. split; [exact Hctx|]. split; [exact Hchild|].
  unfold child in Hchild. rewrite Hctx in Hchild. simpl in Hchild.
  injection Hchild as <-.
  split; [|split; [|split]].
  - intros i Hi. simpl in Hi.
    rewrite length_update, (length_app (instances w)) in Hi. simpl in Hi.
    destruct (Nat.eq_dec i (List.length (instances w))) as [->|Hne];
      [eexists; exact Hnew|].
    destruct (Hv i ltac:(lia)) as [c Hc]. exists c. now apply Hold.
  - simpl. rewrite length_update, (length_app (instances w)). simpl. lia.
  - simpl. now rewrite <- app_assoc.
  - reflexivity.
Qed.

Lemma log_keeps_valid (channel : Z -> Z) (env : Env) (now : Date) (this : nat)
    (level : LogLevel) (message : string) (data : value) (w : World) :
  valid_world w -> this < List.length (instances w) ->
  exists w',
    log channel env now this level message data w = Some w' /\
    valid_world w' /\ instances w' = instances w /\ objects w' = objects w.
Proof.
  intros Hv Hlt. destruct (Hv this Hlt) as [ctx Hctx].
  unfold log. rewrite Hctx.
  destruct (negb (shouldLog env level)); [now exists w|].
  destruct (formatLogMessage_total channel now (objects w) level ctx message data)
    as [payload [_ Hline]].
  rewrite Hline. eexists. split; [reflexivity|]. simpl. repeat split.
  exact Hv.
Qed.

Lemma log_frame (channel : Z -> Z) (env : Env) (now : Date) (this : nat)
    (level : LogLevel) (message : string) (data : value) (w w' : World) :
  log channel env now this level message data w = Some w' ->
  instances w' = instances w /\ objects w' = objects w /\
  exists written, console w' = (console w ++ written)%list /\ List.length written <= 1.
Proof.
  unfold log. intros H.
  destruct (context_of w this) as [ctx|]; [|discriminate H].
  destruct (negb (shouldLog env level)).
  - injection H as <-. repeat split. exists []. split; [now rewrite app_nil_r | simpl; lia].
  - destruct (formatLogMessage _ _ _ _ _ _ _) as [line|]; [|discriminate H].
    injection H as <-. simpl. repeat split. eexists. split; [reflexivity | simpl; lia].
Qed.

(** X18: every logger having its context object is an invariant.  It
    holds of the root logger's world; in a world where it holds,
    [setUserId] on an existing logger and [child] on options that are data
    properties return and keep it, and a leveled call with plain data that
    returns has kept it.  None of the three changes a logger's context
    object or any other object that exists, nor a line already written:
    [setUserId] adds one object, [child] two objects and one logger, and a
    leveled call leaves the loggers and the objects they refer to as they
    were, adding at most one line. *)
Theorem methods_keep_the_world_valid :
  valid_world default_world /\
  forall (w : World) (this : nat),
    valid_world w -> this < List.length (instances w) ->
    (forall userId, exists w' o,
        setUserId this userId w = Some w' /\ valid_world w' /\
        List.length (instances w') = List.length (instances w) /\
        objects w' = (objects w ++ [o])%list /\ console w' = console w) /\
    (forall options, exists w' o1 o2,
        child this options w = Some (List.length (instances w), w') /\
        valid_world w' /\
        List.length (instances w') = S (List.length (instances w)) /\
        objects w' = (objects w ++ [o1; o2])%list /\ console w' = console w) /\
    (forall channel env now level message data w',
        log channel env now this level message data w = Some w' ->
        valid_world w' /\ instances w' = instances w /\
        (forall a o, nth_error (objects w) a = Some o ->
                     nth_error (objects w') a = Some o) /\
        (forall i, context_of w' i = context_of w i) /\
        exists written,
          console w' = (console w ++ written)%list /\ List.length written <= 1).
Proof.
  split; [exact valid_world_default|].
  intros w this Hv Hlt. split; [|split].
  - intros userId.
    destruct (setUserId_keeps_valid this userId w Hv Hlt)
      as [w' [ctx [_ [H1 [H2 [H3 [H4 H5]]]]]]].
    exists w'. eexists. repeat split; eassumption.
  - intros options.
    destruct (child_keeps_valid this options w Hv Hlt)
      as [w' [ctx [_ [H1 [H2 [H3 [H4 H5]]]]]]].
    exists w'. eexists. eexists. repeat split; eassumption.
  - intros channel env now level message data w' Hlog.
    destruct (log_frame _ _ _ _ _ _ _ _ _ Hlog) as [Hi [Ho Hc]].
    assert (Hctx : forall i, context_of w' i = context_of w i).
    { intros i. unfold context_of. now rewrite Hi, Ho. }
    split; [|split; [exact Hi|split; [|split; [exact Hctx|exact Hc]]]].
    + intros i Hlen. rewrite Hi in Hlen. rewrite Hctx. now apply Hv.
    + intros a o Ha. now rewrite Ho.
Qed.

Lemma methods_keep_the_world_valid_witness :
  valid_world default_world /\ 0 < List.length (instances default_world) /\
  (exists w' o,
    setUserId 0 (Some "user-123") default_world = Some w' /\ valid_world w' /\
    List.length (instances w') = List.length (instances default_world) /\
    objects w' = (objects default_world ++ [o])%list /\
    console w' = console default_world) /\
  exists w',
    log sample_channel None sample_now 0 info "Info message" VUndefined default_world
    = Some w' /\
    valid_world w' /\ instances w' = instances default_world.
Proof.
  assert (H : 0 < List.length (instances default_world)) by (simpl; lia).
  pose proof (proj2 methods_keep_the_world_valid default_world 0
                (proj1 methods_keep_the_world_valid) H) as [Hset [_ Hlog]].
  split; [exact (proj1 methods_keep_the_world_valid)|]. split; [exact H|].
  split; [exact (Hset (Some "user-123"))|].
  eexists. split; [reflexivity|].
  destruct (Hlog sample_channel None sample_now info "Info message" VUndefined _ eq_refl)
    as [H1 [H2 _]].
  split; [exact H1 | exact H2].
Defined.

(** X19: of two [setUserId] calls the last one decides: the context then
    binds [userId] to the second argument (undefined for null or the empty
    string) and every other key as before the two calls. *)
Theorem setUserId_last_call_decides :
  forall (w : World) (this : nat) (ctx : props) (first second : option string),
    context_of w this = Some ctx ->
    exists w1 w2 ctx2,
      setUserId this first w = Some w1 /\
      setUserId this second w1 = Some w2 /\
      context_of w2 this = Some ctx2 /\
      get "userId" ctx2 = Some (userId_or_undefined second) /\
      (forall k, k <> "userId" -> get k ctx2 = get k ctx).
Proof.
  intros w this ctx first second Hctx.
  destruct (setUserId_effect this first w ctx Hctx) as [w1 [H1 [Hc1 _]]].
  destruct (setUserId_effect this second w1 _ Hc1) as [w2 [H2 [Hc2 _]]].
  exists w1, w2. eexists. split; [exact H1|]. split; [exact H2|]. split; [exact Hc2|].
  split; [apply get_set_same|].
  intros k Hk. now rewrite get_set_other, get_spread, get_set_other, get_spread.
Qed.

Lemma setUserId_last_call_decides_witness :
  context_of default_world 0 = Some [("module", VString "app")] /\
  exists w1 w2 ctx2,
    setUserId 0 (Some "user-123") default_world = Some w1 /\
    setUserId 0 None w1 = Some w2 /\
    context_of w2 0 = Some ctx2 /\
    get "userId" ctx2 = Some (userId_or_undefined None) /\
    (forall k, k <> "userId" -> get k ctx2 = get k [("module", VString "app")]).
Proof.
  split; [reflexivity|].
  exact (setUserId_last_call_decides default_world 0 _ (Some "user-123") None eq_refl).
Defined.

(** X20: contexts compose down the generations: the context of a child of
    a child reads a key from the second options, else from the first, else
    from the first parent; so a [child] call whose options have no module
    keeps the module it inherits. *)
Theorem grandchild_context :
  forall (w : World) (this : nat) (ctx first second : props),
    context_of w this = Some ctx ->
    exists w1 w2 ctx2,
      child this first w = Some (List.length (instances w), w1) /\
      child (List.length (instances w)) second w1
      = Some (S (List.length (instances w)), w2) /\
      context_of w2 (S (List.length (instances w))) = Some ctx2 /\
      (forall k, get k ctx2
                 = match get k second with
                   | Some v => Some v
                   | None => match get k first with
                             | Some v => Some v
                             | None => get k ctx
                             end
                   end) /\
      (get "module" second = None -> get "module" first = None ->
       get "module" ctx2 = get "module" ctx).
Proof.
  intros w this ctx first second Hctx.
  destruct (child_effect this first w ctx Hctx) as [w1 [H1 [Hc1 _]]].
  destruct (child_effect (List.length (instances w)) second w1 _ Hc1)
    as [w2 [H2 [Hc2 _]]].
  assert (Hlen : List.length (instances w1) = S (List.length (instances w))).
  { unfold child in H1. rewrite Hctx in H1. simpl in H1. injection H1 as <-.
    simpl. rewrite length_update, (length_app (instances w)). simpl. lia. }
  rewrite Hlen in H2, Hc2.
  assert (Hget : forall k,
             get k (CopyDataProperties
                      (spread (CopyDataProperties (spread ctx) (own_entries first)))
                      (own_entries second))
             = match get k second with
               | Some v => Some v
               | None => match get k first with
                         | Some v => Some v
                         | None => get k ctx
                         end
               end).
  { intros k. now rewrite get_overlay, get_spread, get_overlay, get_spread. }
  exists w1, w2. eexists. split; [exact H1|]. split; [exact H2|]. split; [exact Hc2|].
  split; [exact Hget|]. intros Hs Hf. now rewrite Hget, Hs, Hf.
Qed.

Lemma grandchild_context_witness :
  context_of world_with_user 0
  = Some [("module", VString "app"); ("userId", VString "user-123")] /\
  exists w1 w2 ctx2,
    child 0 [("module", VString "api")] world_with_user
    = Some (List.length (instances world_with_user), w1) /\
    child (List.length (instances world_with_user)) [("requestId", VString "r-1")] w1
    = Some (S (List.length (instances world_with_user)), w2) /\
    context_of w2 (S (List.length (instances world_with_user))) = Some ctx2 /\
    (forall k, get k ctx2
               = match get k [("requestId", VString "r-1")] with
                 | Some v => Some v
                 | None => match get k [("module", VString "api")] with
                           | Some v => Some v
                           | None => get k [("module", VString "app");
                                            ("userId", VString "user-123")]
                           end
                 end) /\
    (get "module" [("requestId", VString "r-1")] = None ->
     get "module" [("module", VString "api")] = None ->
     get "module" ctx2
     = get "module" [("module", VString "app"); ("userId", VString "user-123")]).
Proof.
  split; [reflexivity|].
  exact (grandchild_context world_with_user 0 _ [("module", VString "api")]
           [("requestId", VString "r-1")] eq_refl).
Defined.

(** ** Undefined properties *)

Lemma serialize_each_undefined (h : heap) (fuel : nat) (stack : list addr)
    (indent : string) (seen : list addr) (vs : list value) :
  Forall (fun v => v = VUndefined) vs ->
  serialize_each (SerializeJSONProperty (S fuel) h stack indent) seen vs
  = Returns (map (fun _ => None) vs, seen).
Proof.
  intros H. induction H as [|v vs Hv Hvs IH]; [reflexivity|].
  subst v. cbn [serialize_each map].
  change (SerializeJSONProperty (S fuel) h stack indent seen VUndefined)
    with (@Returns (option string * list addr) (None, seen)).
  cbv iota beta. now rewrite IH.
Qed.

Lemma members_all_undefined (ks : list string) (vs : list value) :
  members ks (map (fun _ => None) vs) = [].
Proof.
  revert vs. induction ks as [|k ks IH]; intros vs; [reflexivity|].
  destruct vs as [|v vs]; [reflexivity|]. simpl. apply IH.
Qed.

(** X21: properties bound to undefined are not written: an object that
    has keys, all of them bound to undefined, is rendered as a new line and
    an empty pair of braces. *)
Theorem undefined_properties_not_written :
  forall (h : heap) (a : addr) (ps : props),
    nth_error h a = Some (OObject ps) ->
    ps <> [] ->
    (forall k v, get k ps = Some v -> v = VUndefined) ->
    formatDebugObject h (VRef a) = Some (NL ++ "{}").
Proof.
  intros h a ps Ha Hne Hall.
  assert (Hread : forall k, read k ps = VUndefined).
  { intros k. unfold read. destruct (get k ps) as [v|] eqn:E; [|reflexivity].
    now apply Hall with (k := k). }
  unfold formatDebugObject.
  destruct ps as [|[k0 v0] ps0] eqn:Eps; [contradiction|]. rewrite <- Eps in *.
  rewrite (Object_keys_nonempty h a (OObject ps) k0 v0 Ha)
    by (subst ps; simpl; now rewrite String.eqb_refl).
  simpl. rewrite Ha. rewrite Hread. simpl.
  assert (Hlen : exists n, List.length h = S n).
  { destruct h as [|o h']; [destruct a; discriminate Ha | now eexists]. }
  destruct Hlen as [n Hn].
  unfold JSON_stringify. rewrite Hn.
  rewrite (SerializeJSONProperty_object (S n) h [] "" [] a ps eq_refl eq_refl Ha).
  rewrite serialize_each_undefined.
  - now rewrite members_all_undefined.
  - unfold own_entries. rewrite map_map. simpl.
    apply Forall_forall. intros v Hin. apply in_map_iff in Hin.
    destruct Hin as [k [<- _]]. apply Hread.
Qed.

Lemma undefined_properties_not_written_witness :
  nth_error [OObject [("userId", VUndefined)]] 0 = Some (OObject [("userId", VUndefined)]) /\
  [("userId", VUndefined)] <> [] /\
  formatDebugObject [OObject [("userId", VUndefined)]] (VRef 0) = Some (NL ++ "{}").
Proof.
  assert (H1 : [("userId", VUndefined)] <> []) by discriminate.
  assert (H2 : forall k v, get k [("userId", VUndefined)] = Some v -> v = VUndefined).
  { intros k v. simpl. destruct (String.eqb k "userId"); [|discriminate].
    intros H. injection H as <-. reflexivity. }
  split; [reflexivity|]. split; [exact H1|].
  exact (undefined_properties_not_written [OObject [("userId", VUndefined)]] 0 _
           eq_refl H1 H2).
Defined.

(** ** The unified logger on the server *)

Lemma string_field_module_setUserId (userId : option string) (context : props) :
  string_field "module" (UnifiedLogger_setUserId userId context)
  = string_field "module" context.
Proof.
  unfold string_field, UnifiedLogger_setUserId.
  now rewrite get_set_other, get_spread by discriminate.
Qed.

(** X22: on the server the unified logger of the guide logs through a
    fresh child of the root logger made from its module alone: each call
    adds one logger to the world, and its own [setUserId] changes nothing
    of what is written. *)
Theorem unified_logger_ignores_its_user_id :
  forall (channel : Z -> Z) (env : Env) (now : Date) (context : props)
         (level : LogLevel) (message : string) (data : value) (w : World),
    valid_world w -> 0 < List.length (instances w) ->
    (exists w',
        UnifiedLogger_log channel env now context level message data w = Some w' /\
        List.length (instances w') = S (List.length (instances w))) /\
    (forall userId,
        UnifiedLogger_log channel env now (UnifiedLogger_setUserId userId context)
          level message data w
        = UnifiedLogger_log channel env now context level message data w).
Proof.
  intros channel env now context level message data w Hv Hlt. split.
  - unfold UnifiedLogger_log.
    destruct (child_keeps_valid 0 [("module", VString (or_string (string_field "module" context) "app"))]
                w Hv Hlt) as [w1 [ctx [_ [Hc [Hv1 [Hl1 _]]]]]].
    rewrite Hc.
    destruct (log_keeps_valid channel env now (List.length (instances w)) level
                message data w1 Hv1 ltac:(lia)) as [w2 [Hlog [_ [Hi _]]]].
    exists w2. split.
    + destruct level; exact Hlog.
    + now rewrite Hi.
  - intros userId. unfold UnifiedLogger_log.
    now rewrite string_field_module_setUserId.
Qed.

Lemma unified_logger_ignores_its_user_id_witness :
  valid_world default_world /\ 0 < List.length (instances default_world) /\
  UnifiedLogger_log sample_channel None sample_now
    (UnifiedLogger_setUserId (Some "user-123") [("module", VString "web")])
    info "Operation successful" VUndefined default_world
  = UnifiedLogger_log sample_channel None sample_now [("module", VString "web")]
      info "Operation successful" VUndefined default_world.
Proof.
  assert (Hv : valid_world default_world) by exact valid_world_default.
  assert (H : 0 < List.length (instances default_world)) by (simpl; lia).
  split; [exact Hv|]. split; [exact H|].
  exact (proj2 (unified_logger_ignores_its_user_id sample_channel None sample_now
                  [("module", VString "web")] info "Operation successful" VUndefined
                  default_world Hv H) (Some "user-123")).
Defined.
